(** * One-time secret service: the in-memory secret store and its handlers

    A shallow embedding of [app/cache.py], [app/encryption.py] and the
    request handlers of [app/main.py], followed by the properties of the
    store: read-once retrieval, lazy eviction, the floor TTL,
    passphrase-gated deletion and the expiration sweep. *)

From Stdlib Require Import ZArith Lia Ascii.
From stdpp Require Import gmap strings list fin_maps pretty.

Local Open Scope string_scope.
Local Open Scope Z_scope.

(** ** The Python runtime the program relies on *)

(** Exceptions that the modelled code can raise. *)
Inductive exn : Type :=
| HTTPException (status_code : Z) (detail : string)
| OverflowError
| KeyError (key : string)
| InvalidToken.

(** How a call ends: it returns a value or raises. *)
Inductive outcome (A : Type) : Type :=
| Returns (a : A)
| Raises (e : exn).
Arguments Returns {A} a.
Arguments Raises {A} e.

(** Python truthiness of an [Optional[str]]: [None] and the empty string are
    false, every other string is true. *)
Definition truthy (s : option string) : bool :=
  match s with
  | Some s => negb (bool_decide (s = ""))
  | None => false
  end.

(** *** [datetime] and [timedelta]

    A [datetime] is the number of microseconds since [datetime.min]
    (0001-01-01 00:00:00); the largest one is 9999-12-31 23:59:59.999999. *)
Definition datetime_max : Z := 3652059 * 86400 * 1000000 - 1.

(** [timedelta(seconds=s)] for an integer [s]: the normalised number of days
    must have magnitude at most 999999999. The result is in microseconds. *)
Definition timedelta_seconds (s : Z) : outcome Z :=
  if bool_decide (Z.abs (s / 86400) ≤ 999999999)
  then Returns (s * 1000000)
  else Raises OverflowError.

(** [d + delta] on a [datetime]: the sum has to be a representable date. *)
Definition datetime_add (d delta : Z) : outcome Z :=
  if bool_decide (0 ≤ d + delta ≤ datetime_max)
  then Returns (d + delta)
  else Raises OverflowError.

(** ** [app/db.py]: the audit log *)
Module db.

(** The columns of [class Log] that the caller supplies ([id] and
    [timestamp] are filled in by the database). *)
Record Log : Type := {
  secret_key : string;
  action : string;
  ip_address : string;
  details : option string
}.

End db.

(** ** [app/cache.py]: the data *)
Module cache_data.

(** [class SecretEntry]. *)
Record SecretEntry : Type := {
  encrypted_secret : string;
  passphrase : option string;
  expiration : Z
}.

End cache_data.
Export cache_data.

(** ** The process state and its environment *)

(** The mutable state of the process: the module-level dictionary
    [secrets_cache], the rows committed to the audit log, the number of
    clock readings taken so far and the number of random draws made so far. *)
Record World : Type := {
  secrets_cache : gmap string SecretEntry;
  logs : list db.Log;
  tick : nat;
  draws : nat
}.

(** What the program takes from outside: the wall clock, the random source
    behind [uuid.uuid4] and [Fernet.encrypt], the Fernet decryption under the
    process key, and the database commit ([None] when it raises). *)
Class Env : Type := {
  clock : nat → Z;
  uuid4 : nat → string;
  fernet_encrypt : nat → string → string;
  fernet_decrypt : string → option string;
  db_commit : list db.Log → db.Log → option (list db.Log)
}.

(** Computations over the process state that may raise. A raised exception
    keeps the state changes made before it. *)
Definition M (A : Type) : Type := World → outcome A * World.

Definition ret {A} (a : A) : M A := λ w, (Returns a, w).

Definition bind {A B} (m : M A) (k : A → M B) : M B :=
  λ w, match m w with
       | (Returns a, w') => k a w'
       | (Raises e, w') => (Raises e, w')
       end.

Definition raise {A} (e : exn) : M A := λ w, (Raises e, w).

(** Lift the outcome of a pure library call. *)
Definition lift {A} (o : outcome A) : M A := λ w, (o, w).

(** [try: m  except Exception: h] *)
Definition try_except {A} (m : M A) (h : exn → M A) : M A :=
  λ w, match m w with
       | (Returns a, w') => (Returns a, w')
       | (Raises e, w') => h e w'
       end.

(** The computations form a monad; [x ← m; k] and [m;; k] are stdpp's
    notations for [bind]. *)
#[global] Instance M_ret : MRet M := @ret.
#[global] Instance M_bind : MBind M := λ A B k m, bind m k.

(** [for x in l: body x] *)
Fixpoint for_each {A} (l : list A) (body : A → M unit) : M unit :=
  match l with
  | [] => ret tt
  | x :: l' => body x;; for_each l' body
  end.

Section Runtime.
Context {env : Env}.

(** The state after one more reading of the clock. *)
Definition advance (w : World) : World :=
  {| secrets_cache := secrets_cache w; logs := logs w;
     tick := S (tick w); draws := draws w |}.

(** [datetime.now()]: the next reading of the clock. *)
Definition datetime_now : M Z :=
  λ w, (Returns (clock (tick w)), advance w).

(** The next draw of the random source. *)
Definition draw : M nat :=
  λ w, (Returns (draws w),
        {| secrets_cache := secrets_cache w; logs := logs w;
           tick := tick w; draws := S (draws w) |}).

(** *** Operations on the dictionary [secrets_cache] *)

(** [secrets_cache.get(key)] *)
Definition dict_get (key : string) : M (option SecretEntry) :=
  λ w, (Returns (secrets_cache w !! key), w).

(** [secrets_cache[key]] *)
Definition dict_getitem (key : string) : M SecretEntry :=
  λ w, match secrets_cache w !! key with
       | Some e => (Returns e, w)
       | None => (Raises (KeyError key), w)
       end.

(** [key in secrets_cache] *)
Definition dict_contains (key : string) : M bool :=
  λ w, (Returns (bool_decide (is_Some (secrets_cache w !! key))), w).

Definition set_cache (c : gmap string SecretEntry) (w : World) : World :=
  {| secrets_cache := c; logs := logs w; tick := tick w; draws := draws w |}.

(** [secrets_cache[key] = entry] *)
Definition dict_setitem (key : string) (entry : SecretEntry) : M unit :=
  λ w, (Returns tt, set_cache (<[key := entry]> (secrets_cache w)) w).

(** [del secrets_cache[key]] *)
Definition dict_delitem (key : string) : M unit :=
  λ w, match secrets_cache w !! key with
       | Some _ => (Returns tt, set_cache (delete key (secrets_cache w)) w)
       | None => (Raises (KeyError key), w)
       end.

(** [list(secrets_cache.keys())]: a snapshot of the keys. Python lists them
    in insertion order and the finite map in an order of its own; the sweep
    treats every key on its own, and [sweep_keys_postcondition] is proved
    for every duplicate-free enumeration of the keys. *)
Definition dict_keys : M (list string) :=
  λ w, (Returns ((map_to_list (secrets_cache w)).*1), w).

End Runtime.

(** ** [app/cache.py] *)
Module cache.
Section Cache.
Context {env : Env}.

(** [def add_secret(secret_key, encrypted_secret, passphrase, ttl_seconds)] *)
Definition add_secret (secret_key encrypted_secret : string)
    (passphrase : option string) (ttl_seconds : Z) : M unit :=
  let ttl := Z.max ttl_seconds 300 in
  now ← datetime_now;
  delta ← lift (timedelta_seconds ttl);
  expiration_time ← lift (datetime_add now delta);
  dict_setitem secret_key
    {| encrypted_secret := encrypted_secret;
       passphrase := passphrase;
       expiration := expiration_time |}.

(** [def get_secret(secret_key)]. A [SecretEntry] object is always true, so
    [if entry:] tests only that the key was found. *)
Definition get_secret (secret_key : string) : M (option SecretEntry) :=
  entry ← dict_get secret_key;
  match entry with
  | Some entry =>
      now ← datetime_now;
      if bool_decide (now < expiration entry)
      then mret (Some entry)
      else dict_delitem secret_key;; mret None
  | None => mret None
  end.

(** [def delete_secret(secret_key)] *)
Definition delete_secret (secret_key : string) : M unit :=
  present ← dict_contains secret_key;
  if present : bool then dict_delitem secret_key else mret tt.

(** The body of the [for] loop of [clear_expired_secrets]. *)
Definition sweep_key (key : string) : M unit :=
  now ← datetime_now;
  entry ← dict_getitem key;
  if bool_decide (now >= expiration entry)
  then delete_secret key
  else mret tt.

(** One cycle of [clear_expired_secrets]: the [for] loop over the snapshot of
    the keys. The [await asyncio.sleep(60)] that follows it hands control to
    the other handlers and leaves the state alone. *)
Definition clear_expired_cycle : M unit :=
  keys ← dict_keys;
  for_each keys sweep_key.

(** [async def clear_expired_secrets()], cut after [cycles] rounds of its
    [while True] and run with no other handler in between. *)
Fixpoint clear_expired_secrets (cycles : nat) : M unit :=
  match cycles with
  | O => mret tt
  | S n => clear_expired_cycle;; clear_expired_secrets n
  end.

End Cache.
End cache.

(** ** [app/encryption.py] *)
Module encryption.
Section Encryption.
Context {env : Env}.

(** [def encrypt_data(data)]: a Fernet token depends on the plaintext and on
    a fresh random draw. *)
Definition encrypt_data (data : string) : M string :=
  n ← draw;
  mret (fernet_encrypt n data).

(** [def decrypt_data(encrypted_data)]: raises when the token does not
    decrypt under the process key. *)
Definition decrypt_data (encrypted_data : string) : M string :=
  match fernet_decrypt encrypted_data with
  | Some data => mret data
  | None => raise InvalidToken
  end.

End Encryption.
End encryption.

(** ** [app/main.py] *)
Module main.
Import cache encryption.

Record CreateSecretRequest : Type := {
  secret : string;
  passphrase : string;
  ttl : Z
}.

Record CreateSecretResponse : Type := { secret_key : string }.

(** The field is called [secret] in the source, like the one of the
    request. *)
Record GetSecretResponce : Type := { responce_secret : string }.

Record DeleteSecretResponse : Type := { status : string }.

(** What the handlers read of a [Request]: [request.client.host]. *)
Record Request : Type := { client_host : string }.

(** [str(b)] for a Python [bool]. *)
Definition str_bool (b : bool) : string := if b then "True" else "False".

Section Main.
Context {env : Env}.

(** [def log_event(secret_key, action, ip_address, details=None)]: the row
    is committed; if that raises, the error is printed and nothing else
    happens. *)
Definition log_event (secret_key action ip_address : string)
    (details : option string) : M unit :=
  λ w,
    let log_entry :=
      {| db.secret_key := secret_key; db.action := action;
         db.ip_address := ip_address; db.details := details |} in
    match db_commit (logs w) log_entry with
    | Some rows =>
        (Returns tt,
         {| secrets_cache := secrets_cache w; logs := rows;
            tick := tick w; draws := draws w |})
    | None => (Returns tt, w)
    end.

(** [async def create_secret(request, payload)] *)
Definition create_secret (request : Request) (payload : CreateSecretRequest)
    : M CreateSecretResponse :=
  n ← draw;
  let secret_key := uuid4 n in
  encrypted ← encrypt_data (secret payload);
  let ttl := Z.max (ttl payload) 300 in
  add_secret secret_key encrypted (Some (passphrase payload)) ttl;;
  let client_host := client_host request in
  log_event secret_key "create" client_host
    (Some ("TTL: " +:+ pretty ttl +:+ ", Passphrase provided: "
           +:+ str_bool (truthy (Some (passphrase payload)))));;
  mret {| secret_key := secret_key |}.

(** [async def get_secret_endpoint(secret_key, request)] *)
Definition get_secret_endpoint (secret_key : string) (request : Request)
    : M GetSecretResponce :=
  entry ← get_secret secret_key;
  match entry with
  | None =>
      raise (HTTPException 404
               "Секрет не найден или истёк срок его действия.")
  | Some entry =>
      plain_text ←
        try_except (decrypt_data (encrypted_secret entry))
          (λ _, raise (HTTPException 500 "Ошибка при расшифровке секрета."));
      delete_secret secret_key;;
      let client_host := client_host request in
      log_event secret_key "read" client_host None;;
      mret {| responce_secret := plain_text |}
  end.

(** [async def delete_secret_endpoint(secret_key, request, passphrase=None)] *)
Definition delete_secret_endpoint (secret_key : string) (request : Request)
    (passphrase : option string) : M DeleteSecretResponse :=
  entry ← get_secret secret_key;
  match entry with
  | None =>
      raise (HTTPException 404
               "Секрет не найден или истёк срок его действия.")
  | Some entry =>
      (if truthy (cache_data.passphrase entry)
       then
         if negb (truthy passphrase)
            || negb (bool_decide (passphrase = cache_data.passphrase entry))
         then raise (HTTPException 403
                       "Неверный пароль для удаления секрета.")
         else mret tt
       else mret tt);;
      delete_secret secret_key;;
      let client_host := client_host request in
      log_event secret_key "delete" client_host None;;
      mret {| status := "Секрет успешно удалён." |}
  end.

End Main.

(** The three rejections of the handlers. *)
Definition not_found : exn :=
  HTTPException 404 "Секрет не найден или истёк срок его действия.".

Definition decryption_error : exn :=
  HTTPException 500 "Ошибка при расшифровке секрета.".

Definition passphrase_mismatch : exn :=
  HTTPException 403 "Неверный пароль для удаления секрета.".

Definition deleted : DeleteSecretResponse :=
  {| status := "Секрет успешно удалён." |}.

End main.

(** ** Vocabulary of the statements *)

(** The record that [add_secret] builds at the clock reading [now]. *)
Definition new_entry (enc : string) (p : option string) (ttl now : Z)
    : SecretEntry :=
  {| encrypted_secret := enc; cache_data.passphrase := p;
     expiration := now + Z.max ttl 300 * 1000000 |}.

(** The dates that [add_secret] can compute: the interval fits a
    [timedelta] and the expiration is a [datetime]. *)
Definition representable (ttl now : Z) : Prop :=
  Z.max ttl 300 / 86400 ≤ 999999999
  ∧ 0 ≤ now + Z.max ttl 300 * 1000000 ≤ datetime_max.

(** The passphrase check of [delete_secret_endpoint] lets the request
    through: the stored passphrase is false, or the supplied one equals it. *)
Definition admitted (stored supplied : option string) : Prop :=
  truthy stored = false ∨ supplied = stored.

(** ** Vocabulary of the further properties *)

(** The row that [log_event] builds from its arguments. *)
Definition audit_row (k a ip : string) (d : option string) : db.Log :=
  {| db.secret_key := k; db.action := a; db.ip_address := ip;
     db.details := d |}.

(** The state after [log_event] has offered [row] to the database: the
    committed rows, or the old state when the commit raised. *)
Definition audited {env : Env} (row : db.Log) (w : World) : World :=
  match db_commit (logs w) row with
  | Some rows =>
      {| secrets_cache := secrets_cache w; logs := rows;
         tick := tick w; draws := draws w |}
  | None => w
  end.

(** The state after the two random draws of [create_secret]. *)
Definition drawn_twice (w : World) : World :=
  {| secrets_cache := secrets_cache w; logs := logs w;
     tick := tick w; draws := S (S (draws w)) |}.

(** The [details] that [create_secret] logs. *)
Definition create_details (payload : main.CreateSecretRequest) : string :=
  "TTL: " +:+ pretty (Z.max (main.ttl payload) 300)
  +:+ ", Passphrase provided: "
  +:+ main.str_bool (truthy (Some (main.passphrase payload))).

(** The same environment over another database. *)
Definition with_db_commit (env : Env)
    (commit : list db.Log → db.Log → option (list db.Log)) : Env :=
  {| clock := clock; uuid4 := uuid4; fernet_encrypt := fernet_encrypt;
     fernet_decrypt := fernet_decrypt; db_commit := commit |}.

(** ** A concrete environment for the scenarios *)
Module scenario.
Import cache encryption main.

(** Tokens of the scenarios are the plaintext behind the prefix [enc:]. *)
Definition toy_decrypt (token : string) : option string :=
  match token with
  | String "e"%char (String "n"%char (String "c"%char (String ":"%char data)))
      => Some data
  | _ => None
  end.

(** A clock that starts at [t0] and advances by [step] microseconds between
    two readings, keys [key0], [key1], ..., and a database that accepts
    every row. *)
Definition toy_env (t0 step : Z) : Env :=
  {| clock := λ n, t0 + step * Z.of_nat n;
     uuid4 := λ n, "key" +:+ pretty n;
     fernet_encrypt := λ _ data, "enc:" +:+ data;
     fernet_decrypt := toy_decrypt;
     db_commit := λ rows row, Some (rows ++ [row])%list |}.

Definition empty_world : World :=
  {| secrets_cache := ∅; logs := []; tick := 0; draws := 0 |}.

Definition entry_of (token : string) (pass : option string) (exp : Z)
    : SecretEntry :=
  {| encrypted_secret := token; cache_data.passphrase := pass;
     expiration := exp |}.

(** A store holding one record under the key [K]. *)
Definition one_record (e : SecretEntry) : World :=
  {| secrets_cache := {[ "K" := e ]}; logs := []; tick := 0; draws := 0 |}.

(** A store holding an expired record [A] and a live record [B] (for a
    clock that starts at 1000). *)
Definition two_records : World :=
  {| secrets_cache :=
       {[ "A" := entry_of "enc:a" None 500;
          "B" := entry_of "enc:b" (Some "pw") 5000 ]};
     logs := []; tick := 0; draws := 0 |}.

Definition req : Request := {| client_host := "10.0.0.1" |}.

(** A database that is down: every commit raises. *)
Definition db_down (rows : list db.Log) (row : db.Log)
    : option (list db.Log) := None.

(** A request to store ["hello"] under the passphrase ["pw1"]. *)
Definition hello (seconds : Z) : CreateSecretRequest :=
  {| secret := "hello"; passphrase := "pw1"; ttl := seconds |}.

(** How many records a run took out of the store of [w]. *)
Definition removed {A} (w : World) (run : outcome A * World) : nat :=
  size (secrets_cache w) - size (secrets_cache (snd run)).

End scenario.

Import cache encryption main.

(** * Properties *)

(** ** Running the store operations *)

Ltac unfold_py :=
  unfold mbind, mret, M_bind, M_ret, bind, ret, raise, lift, try_except,
    datetime_now, draw, dict_get, dict_getitem, dict_contains, dict_setitem,
    dict_delitem, dict_keys in *.

Section StoreRuns.
Context {env : Env}.

Lemma set_cache_id (w : World) : set_cache (secrets_cache w) w = w.
Proof. by destruct w. Qed.

Lemma get_secret_absent (w : World) (k : string) :
  secrets_cache w !! k = None →
  get_secret k w = (Returns None, w).
Proof. intros Hk. unfold get_secret. unfold_py. by rewrite Hk. Qed.

Lemma get_secret_live (w : World) (k : string) (e : SecretEntry) :
  secrets_cache w !! k = Some e →
  clock (tick w) < expiration e →
  get_secret k w = (Returns (Some e), advance w).
Proof.
  intros Hk Hlt. unfold get_secret. unfold_py. rewrite Hk.
  by rewrite bool_decide_eq_true_2.
Qed.

Lemma get_secret_expired (w : World) (k : string) (e : SecretEntry) :
  secrets_cache w !! k = Some e →
  expiration e ≤ clock (tick w) →
  get_secret k w
  = (Returns None, set_cache (delete k (secrets_cache w)) (advance w)).
Proof.
  intros Hk Hge. unfold get_secret. unfold_py. rewrite Hk.
  rewrite bool_decide_eq_false_2 by lia. simpl. by rewrite Hk.
Qed.

Lemma delete_secret_run (w : World) (k : string) :
  delete_secret k w = (Returns tt, set_cache (delete k (secrets_cache w)) w).
Proof.
  unfold delete_secret. unfold_py.
  destruct (secrets_cache w !! k) as [e|] eqn:Hk.
  - rewrite bool_decide_eq_true_2 by eauto. by rewrite Hk.
  - rewrite bool_decide_eq_false_2 by (intros [? ?]; congruence).
    by rewrite delete_id, set_cache_id.
Qed.

Lemma log_event_cache (w : World) (k a ip : string) (d : option string) :
  ∃ w', log_event k a ip d w = (Returns tt, w')
        ∧ secrets_cache w' = secrets_cache w
        ∧ tick w' = tick w ∧ draws w' = draws w.
Proof.
  unfold log_event. destruct (db_commit _ _); eauto.
Qed.

End StoreRuns.

(** ** Retrieval: [get_secret] and [get_secret_endpoint] *)

Section Retrieval.
Context {env : Env}.

(** Whatever [get_secret] hands out is in the store and not yet expired. *)
Lemma get_secret_found_live (w w' : World) (k : string) (e : SecretEntry) :
  get_secret k w = (Returns (Some e), w') →
  secrets_cache w !! k = Some e ∧ clock (tick w) < expiration e
  ∧ w' = advance w.
Proof.
  unfold get_secret. unfold_py.
  destruct (secrets_cache w !! k) as [e0|] eqn:Hk; [|congruence].
  case_bool_decide as Hlt; simpl.
  - intros [= -> <-]. done.
  - rewrite Hk. congruence.
Qed.

Lemma get_secret_endpoint_absent (w : World) (k : string) (r : Request) :
  secrets_cache w !! k = None →
  get_secret_endpoint k r w = (Raises not_found, w).
Proof.
  intros Hk. unfold get_secret_endpoint.
  unfold mbind, M_bind, bind. by rewrite get_secret_absent.
Qed.

Lemma get_secret_endpoint_live (w : World) (k : string) (r : Request)
    (e : SecretEntry) (plain : string) :
  secrets_cache w !! k = Some e →
  clock (tick w) < expiration e →
  fernet_decrypt (encrypted_secret e) = Some plain →
  ∃ w', get_secret_endpoint k r w
        = (Returns {| responce_secret := plain |}, w')
        ∧ secrets_cache w' = delete k (secrets_cache w)
        ∧ tick w' = S (tick w).
Proof.
  intros Hk Hlt Hdec. unfold get_secret_endpoint.
  unfold mbind, M_bind, bind at 1. rewrite (get_secret_live w k e) by done.
  unfold bind at 1, try_except, decrypt_data. rewrite Hdec.
  unfold mret, M_ret, ret at 1. unfold bind at 1.
  rewrite delete_secret_run. unfold bind at 1.
  destruct (log_event_cache (set_cache (delete k (secrets_cache (advance w)))
                               (advance w)) k "read" (client_host r) None)
    as (w' & -> & Hc & Ht & _).
  exists w'. split; [done|]. by rewrite Hc, Ht.
Qed.

Lemma get_secret_endpoint_undecryptable (w : World) (k : string)
    (r : Request) (e : SecretEntry) :
  secrets_cache w !! k = Some e →
  clock (tick w) < expiration e →
  fernet_decrypt (encrypted_secret e) = None →
  get_secret_endpoint k r w = (Raises decryption_error, advance w).
Proof.
  intros Hk Hlt Hdec. unfold get_secret_endpoint.
  unfold mbind, M_bind, bind at 1. rewrite (get_secret_live w k e) by done.
  unfold bind at 1, try_except, decrypt_data. by rewrite Hdec.
Qed.

Lemma get_secret_endpoint_expired (w : World) (k : string) (r : Request)
    (e : SecretEntry) :
  secrets_cache w !! k = Some e →
  expiration e ≤ clock (tick w) →
  get_secret_endpoint k r w
  = (Raises not_found, set_cache (delete k (secrets_cache w)) (advance w)).
Proof.
  intros Hk Hge. unfold get_secret_endpoint.
  unfold mbind, M_bind, bind at 1. by rewrite (get_secret_expired w k e).
Qed.

(** A successful retrieval only happens on a stored, live, decryptable
    record, and it leaves the store without that record. *)
Lemma get_secret_endpoint_returns (w w' : World) (k : string) (r : Request)
    (resp : GetSecretResponce) :
  get_secret_endpoint k r w = (Returns resp, w') →
  (∃ e, secrets_cache w !! k = Some e ∧ clock (tick w) < expiration e
        ∧ fernet_decrypt (encrypted_secret e) = Some (responce_secret resp))
  ∧ secrets_cache w' = delete k (secrets_cache w).
Proof.
  intros Hrun.
  destruct (secrets_cache w !! k) as [e|] eqn:Hk.
  - destruct (decide (clock (tick w) < expiration e)) as [Hlt|Hge].
    + destruct (fernet_decrypt (encrypted_secret e)) as [plain|] eqn:Hdec.
      * destruct (get_secret_endpoint_live w k r e plain) as (w1 & Hr & Hc & _);
          [done..|].
        rewrite Hr in Hrun. injection Hrun as <- <-. eauto 10.
      * rewrite (get_secret_endpoint_undecryptable w k r e) in Hrun by done.
        discriminate.
    + rewrite (get_secret_endpoint_expired w k r e) in Hrun by (done || lia).
      discriminate.
  - rewrite get_secret_endpoint_absent in Hrun by done. discriminate.
Qed.

(** C1. Read-once retrieval: for every stored secret (live, and whose
    token decrypts), [get_secret_endpoint] returns the secret and the same
    call removes the entry from the store, every other key being left as it
    was; a second retrieval with the same key, by any request, answers
    "not found" (404). *)
Theorem read_once_retrieval (w : World) (k : string) (r : Request)
    (e : SecretEntry) (plain : string) :
  secrets_cache w !! k = Some e →
  clock (tick w) < expiration e →
  fernet_decrypt (encrypted_secret e) = Some plain →
  ∃ w', get_secret_endpoint k r w
        = (Returns {| responce_secret := plain |}, w')
        ∧ secrets_cache w' = delete k (secrets_cache w)
        ∧ secrets_cache w' !! k = None
        ∧ ∀ r2, get_secret_endpoint k r2 w' = (Raises not_found, w').
Proof.
  intros Hk Hlt Hdec.
  destruct (get_secret_endpoint_live w k r e plain) as (w' & Hrun & Hc & _);
    [done..|].
  assert (secrets_cache w' !! k = None) as Hgone
    by (rewrite Hc; apply lookup_delete_eq).
  exists w'. repeat split; [done..|].
  intros r2. by apply get_secret_endpoint_absent.
Qed.

(** C2. Expired records are never returned: on a key whose record has
    [expiration <= now], [get_secret] returns [None] and the same call
    deletes the record, so that any later [get_secret] on that store finds
    nothing either. *)
Theorem expired_never_returned (w : World) (k : string) (e : SecretEntry) :
  secrets_cache w !! k = Some e →
  expiration e ≤ clock (tick w) →
  ∃ w', get_secret k w = (Returns None, w')
        ∧ secrets_cache w' = delete k (secrets_cache w)
        ∧ secrets_cache w' !! k = None
        ∧ ∀ w2, secrets_cache w2 = secrets_cache w' →
                get_secret k w2 = (Returns None, w2).
Proof.
  intros Hk Hge. eexists. split; [by apply (get_secret_expired w k e)|].
  simpl. split; [done|]. split; [apply lookup_delete_eq|].
  intros w2 Hw2. apply get_secret_absent. rewrite Hw2. apply lookup_delete_eq.
Qed.

(** C10. A decryption failure does not consume the record: on a stored,
    live record whose token does not decrypt, [get_secret_endpoint] raises
    the internal error (500), the store and the audit log are unchanged, and
    a later [get_secret] still finds the record as long as it is live. *)
Theorem decryption_failure_keeps_record (w : World) (k : string)
    (r : Request) (e : SecretEntry) :
  secrets_cache w !! k = Some e →
  clock (tick w) < expiration e →
  fernet_decrypt (encrypted_secret e) = None →
  ∃ w', get_secret_endpoint k r w = (Raises decryption_error, w')
        ∧ secrets_cache w' = secrets_cache w
        ∧ logs w' = logs w
        ∧ (clock (tick w') < expiration e →
           ∃ w2, get_secret k w' = (Returns (Some e), w2)).
Proof.
  intros Hk Hlt Hdec. exists (advance w).
  split; [by apply (get_secret_endpoint_undecryptable w k r e)|].
  repeat split; [done..|].
  intros Hlt'. eexists. by apply get_secret_live.
Qed.

End Retrieval.

(** ** Creation: [add_secret] *)

Section Creation.
Context {env : Env}.

Lemma add_secret_run (w : World) (k enc : string) (p : option string)
    (ttl : Z) :
  add_secret k enc p ttl w
  = if bool_decide (representable ttl (clock (tick w)))
    then (Returns tt,
          set_cache (<[k := new_entry enc p ttl (clock (tick w))]>
                       (secrets_cache w)) (advance w))
    else (Raises OverflowError, advance w).
Proof.
  unfold add_secret, representable, timedelta_seconds, datetime_add, new_entry.
  unfold_py.
  assert (0 ≤ Z.max ttl 300 / 86400) by (apply Z.div_pos; lia).
  repeat case_bool_decide; simpl; try done; lia.
Qed.

(** C3. Floor TTL: for every requested TTL, [add_secret] stores the record
    with expiration [now + max(ttl, 300)] seconds, which is at least 300
    seconds after [now], and exactly 300 seconds after it when the request
    is below 300. The only other outcome is the [OverflowError] of a date
    that is not representable, and then nothing is stored: no record is
    ever created with a shorter life. *)
Theorem floor_ttl (w : World) (k enc : string) (p : option string) (ttl : Z) :
  let now := clock (tick w) in
  match add_secret k enc p ttl w with
  | (Returns _, w') =>
      representable ttl now
      ∧ ∃ e, secrets_cache w' !! k = Some e
             ∧ encrypted_secret e = enc
             ∧ cache_data.passphrase e = p
             ∧ expiration e = now + Z.max ttl 300 * 1000000
             ∧ now + 300 * 1000000 ≤ expiration e
             ∧ (ttl < 300 → expiration e = now + 300 * 1000000)
  | (Raises e, w') =>
      e = OverflowError ∧ ¬ representable ttl now
      ∧ secrets_cache w' = secrets_cache w
  end.
Proof.
  intros now. rewrite add_secret_run. fold now.
  case_bool_decide as Hr; simpl; [|done].
  split; [done|]. eexists. split; [apply lookup_insert_eq|].
  simpl. repeat split; lia.
Qed.

(** [create_secret] hands the floor on: the record it stores under the
    generated key expires [max(ttl, 300)] seconds after the clock reading. *)
Lemma create_secret_floor (w : World) (r : Request)
    (payload : CreateSecretRequest) :
  representable (ttl payload) (clock (tick w)) →
  ∃ w', create_secret r payload w
        = (Returns {| secret_key := uuid4 (draws w) |}, w')
        ∧ secrets_cache w'
          = <[uuid4 (draws w) :=
                new_entry (fernet_encrypt (S (draws w)) (secret payload))
                  (Some (passphrase payload)) (ttl payload)
                  (clock (tick w))]> (secrets_cache w).
Proof.
  intros Hr. unfold create_secret, encrypt_data.
  unfold mbind, M_bind, bind at 1, draw. unfold bind at 1, bind at 1.
  unfold mret, M_ret, ret at 1. unfold bind at 1.
  rewrite add_secret_run. simpl tick.
  assert (representable (Z.max (ttl payload) 300) (clock (tick w))) as Hr'.
  { unfold representable in *. by rewrite Z.max_l by lia. }
  rewrite (bool_decide_eq_true_2 _ Hr'). unfold bind at 1.
  match goal with
  | |- context [log_event ?a ?b ?c ?d ?w0] =>
      destruct (log_event_cache w0 a b c d) as (w' & -> & Hc & _)
  end.
  exists w'. split; [done|]. rewrite Hc. simpl.
  unfold new_entry. by rewrite (Z.max_l (Z.max _ _) 300) by lia.
Qed.

(** C6 (as amended). A key names at most one record, and [add_secret] on a
    key that is already in the store neither rejects the call nor picks
    another key: it replaces the record under that key by the new one and
    leaves every other key, and the set of keys, as they were. *)
Theorem add_secret_replaces (w : World) (k enc : string) (p : option string)
    (ttl : Z) (old : SecretEntry) :
  secrets_cache w !! k = Some old →
  representable ttl (clock (tick w)) →
  ∃ w', add_secret k enc p ttl w = (Returns tt, w')
        ∧ secrets_cache w' !! k = Some (new_entry enc p ttl (clock (tick w)))
        ∧ (∀ k', k' ≠ k → secrets_cache w' !! k' = secrets_cache w !! k')
        ∧ dom (secrets_cache w') = dom (secrets_cache w).
Proof.
  intros Hk Hr. rewrite add_secret_run, bool_decide_eq_true_2 by done.
  eexists. split; [done|]. simpl. split; [apply lookup_insert_eq|].
  split.
  - intros k' Hne. by apply lookup_insert_ne.
  - rewrite dom_insert_L. apply subseteq_union_1_L, singleton_subseteq_l.
    by apply elem_of_dom_2 in Hk.
Qed.

End Creation.

(** ** Deletion: [delete_secret_endpoint] *)

Section Deletion.
Context {env : Env}.

Lemma delete_secret_endpoint_absent (w : World) (k : string) (r : Request)
    (supplied : option string) :
  secrets_cache w !! k = None →
  delete_secret_endpoint k r supplied w = (Raises not_found, w).
Proof.
  intros Hk. unfold delete_secret_endpoint.
  unfold mbind, M_bind, bind. by rewrite get_secret_absent.
Qed.

Lemma delete_secret_endpoint_admitted (w : World) (k : string) (r : Request)
    (supplied : option string) (e : SecretEntry) :
  secrets_cache w !! k = Some e →
  clock (tick w) < expiration e →
  admitted (cache_data.passphrase e) supplied →
  ∃ w', delete_secret_endpoint k r supplied w = (Returns deleted, w')
        ∧ secrets_cache w' = delete k (secrets_cache w).
Proof.
  intros Hk Hlt Hadm. unfold delete_secret_endpoint.
  unfold mbind, M_bind, bind at 1. rewrite (get_secret_live w k e) by done.
  match goal with
  | |- context [bind (if truthy _ then ?a else ?b) _ _] =>
      assert ((if truthy (cache_data.passphrase e) then a else b)
              = (mret tt : M unit)) as ->
  end.
  { destruct Hadm as [->| ->]; [done|].
    destruct (truthy (cache_data.passphrase e)); [|done].
    by rewrite bool_decide_eq_true_2. }
  unfold mret, M_ret, ret at 1. unfold bind at 1, bind at 1.
  rewrite delete_secret_run. unfold bind at 1.
  destruct (log_event_cache (set_cache (delete k (secrets_cache (advance w)))
                               (advance w)) k "delete" (client_host r) None)
    as (w' & -> & Hc & _).
  exists w'. split; [done|]. by rewrite Hc.
Qed.

Lemma delete_secret_endpoint_refused (w : World) (k : string) (r : Request)
    (supplied : option string) (e : SecretEntry) :
  secrets_cache w !! k = Some e →
  clock (tick w) < expiration e →
  truthy (cache_data.passphrase e) = true →
  supplied ≠ cache_data.passphrase e →
  delete_secret_endpoint k r supplied w
  = (Raises passphrase_mismatch, advance w).
Proof.
  intros Hk Hlt Htrue Hne. unfold delete_secret_endpoint.
  unfold mbind, M_bind, bind at 1. rewrite (get_secret_live w k e) by done.
  rewrite Htrue, (bool_decide_eq_false_2 _ Hne), orb_true_r. done.
Qed.

(** C4. Passphrase mismatch changes nothing: on a live record protected by
    a (non-empty) passphrase, a delete request that supplies no passphrase
    or a different one is refused (403); the store and the audit log are
    exactly as before, and a retrieval that follows, while the record is
    live, still finds the record and returns its secret. *)
Theorem passphrase_mismatch_untouched (w : World) (k : string) (r : Request)
    (supplied : option string) (e : SecretEntry) (p : string) :
  secrets_cache w !! k = Some e →
  clock (tick w) < expiration e →
  cache_data.passphrase e = Some p →
  p ≠ "" →
  supplied ≠ Some p →
  ∃ w', delete_secret_endpoint k r supplied w
        = (Raises passphrase_mismatch, w')
        ∧ secrets_cache w' = secrets_cache w
        ∧ logs w' = logs w
        ∧ (clock (tick w') < expiration e →
           (∃ w2, get_secret k w' = (Returns (Some e), w2))
           ∧ ∀ r2 plain,
               fernet_decrypt (encrypted_secret e) = Some plain →
               ∃ w2, get_secret_endpoint k r2 w'
                     = (Returns {| responce_secret := plain |}, w2)).
Proof.
  intros Hk Hlt Hp Hne Hsup. exists (advance w). split.
  - apply (delete_secret_endpoint_refused w k r supplied e); try done.
    + rewrite Hp. simpl. by rewrite bool_decide_eq_false_2.
    + by rewrite Hp.
  - repeat split; [done..| |].
    + eexists. by apply get_secret_live.
    + intros r2 plain Hdec.
      destruct (get_secret_endpoint_live (advance w) k r2 e plain)
        as (w2 & Hr & _); eauto.
Qed.

(** C5. Delete with the matching passphrase: on a live record created with
    a passphrase, a delete request that supplies exactly that passphrase
    answers "deleted", removes the record, and a retrieval that follows
    answers "not found" (404). *)
Theorem matching_passphrase_deletes (w : World) (k : string) (r : Request)
    (e : SecretEntry) (p : string) :
  secrets_cache w !! k = Some e →
  clock (tick w) < expiration e →
  cache_data.passphrase e = Some p →
  ∃ w', delete_secret_endpoint k r (Some p) w = (Returns deleted, w')
        ∧ secrets_cache w' = delete k (secrets_cache w)
        ∧ secrets_cache w' !! k = None
        ∧ ∀ r2, get_secret_endpoint k r2 w' = (Raises not_found, w').
Proof.
  intros Hk Hlt Hp.
  destruct (delete_secret_endpoint_admitted w k r (Some p) e)
    as (w' & Hr & Hc); [done..| |].
  { right. by rewrite Hp. }
  assert (secrets_cache w' !! k = None) as Hgone
    by (rewrite Hc; apply lookup_delete_eq).
  exists w'. repeat split; [done..|].
  intros r2. by apply get_secret_endpoint_absent.
Qed.

(** C9. An empty passphrase protects nothing: on a live record whose stored
    passphrase is the empty string, [delete_secret_endpoint] skips the
    passphrase check whatever the request supplies (nothing, the empty
    string or any other value): it answers "deleted" and removes the
    record, and so never answers with the mismatch (403). *)
Theorem empty_passphrase_unprotected (w : World) (k : string) (r : Request)
    (supplied : option string) (e : SecretEntry) :
  secrets_cache w !! k = Some e →
  clock (tick w) < expiration e →
  cache_data.passphrase e = Some "" →
  ∃ w', delete_secret_endpoint k r supplied w = (Returns deleted, w')
        ∧ secrets_cache w' = delete k (secrets_cache w)
        ∧ fst (delete_secret_endpoint k r supplied w)
          ≠ Raises passphrase_mismatch.
Proof.
  intros Hk Hlt Hp.
  destruct (delete_secret_endpoint_admitted w k r supplied e)
    as (w' & Hr & Hc); [done..| |].
  { left. by rewrite Hp. }
  exists w'. rewrite Hr. done.
Qed.

End Deletion.

(** ** The expiration sweep: [clear_expired_secrets] *)

Section Sweep.
Context {env : Env}.

Lemma sweep_key_run (w : World) (k : string) (e : SecretEntry) :
  secrets_cache w !! k = Some e →
  sweep_key k w
  = (Returns tt,
     if bool_decide (expiration e ≤ clock (tick w))
     then set_cache (delete k (secrets_cache w)) (advance w)
     else advance w).
Proof.
  intros Hk. unfold sweep_key.
  unfold mbind, M_bind, bind at 1. unfold datetime_now.
  unfold bind at 1, dict_getitem. simpl. rewrite Hk.
  case_bool_decide as Hge.
  - rewrite bool_decide_eq_true_2 by lia. by rewrite delete_secret_run.
  - rewrite bool_decide_eq_false_2 by lia. done.
Qed.

(** The loop over any duplicate-free list of stored keys: the [i]-th key is
    compared with the [i]-th clock reading of the loop and is deleted when
    its record has expired by then; nothing else changes. *)
Lemma sweep_keys_spec (ks : list string) :
  ∀ w : World,
    NoDup ks →
    (∀ k, k ∈ ks → is_Some (secrets_cache w !! k)) →
    ∃ w', for_each ks sweep_key w = (Returns tt, w')
          ∧ tick w' = (tick w + length ks)%nat
          ∧ logs w' = logs w
          ∧ (∀ k, k ∉ ks → secrets_cache w' !! k = secrets_cache w !! k)
          ∧ (∀ i k e,
               ks !! i = Some k →
               secrets_cache w !! k = Some e →
               secrets_cache w' !! k
               = if bool_decide (expiration e ≤ clock (tick w + i)%nat)
                 then None else Some e).
Proof.
  induction ks as [|k0 ks IH]; intros w Hnd Hin.
  - exists w. simpl. unfold ret. repeat split; try done; lia.
  - apply NoDup_cons in Hnd as [Hk0 Hnd].
    destruct (Hin k0) as [e0 He0]; [left|].
    simpl. unfold mbind, M_bind, bind. rewrite (sweep_key_run w k0 e0 He0).
    set (w1 := if bool_decide (expiration e0 ≤ clock (tick w))
               then set_cache (delete k0 (secrets_cache w)) (advance w)
               else advance w).
    assert (tick w1 = S (tick w)) as Ht1
      by (unfold w1; by case_bool_decide).
    assert (logs w1 = logs w) as Hl1
      by (unfold w1; by case_bool_decide).
    assert (∀ k, k ≠ k0 → secrets_cache w1 !! k = secrets_cache w !! k)
      as Hother.
    { intros k Hne. unfold w1. case_bool_decide; simpl; [|done].
      by apply lookup_delete_ne. }
    assert (secrets_cache w1 !! k0
            = if bool_decide (expiration e0 ≤ clock (tick w))
              then None else Some e0) as Hk1.
    { unfold w1. case_bool_decide; simpl; [apply lookup_delete_eq|done]. }
    destruct (IH w1 Hnd) as (w' & Hrun & Ht & Hl & Hout & Hidx).
    { intros k Hk. rewrite Hother; [apply Hin; by right|].
      intros ->. done. }
    exists w'. split; [done|]. split; [simpl; lia|].
    split; [congruence|]. split.
    + intros k Hk. apply not_elem_of_cons in Hk as [Hne Hk].
      rewrite Hout, Hother; done.
    + intros [|i] k e Hi Hke; simpl in Hi.
      * injection Hi as <-. rewrite Hout by done.
        rewrite Hk1. replace (tick w + 0)%nat with (tick w) by lia.
        rewrite He0 in Hke. by injection Hke as ->.
      * assert (k ≠ k0) as Hne.
        { intros ->. apply Hk0. by eapply list_elem_of_lookup_2. }
        rewrite (Hidx i k e Hi) by (by rewrite Hother).
        rewrite Ht1. by replace (S (tick w) + i)%nat with (tick w + S i)%nat
          by lia.
Qed.

(** The postcondition of the loop does not depend on the order in which
    the keys are listed: it holds for every duplicate-free enumeration of
    the stored keys, in particular for Python's insertion order. *)
Lemma sweep_keys_postcondition (ks : list string) (w : World) (lo hi : Z) :
  NoDup ks →
  (∀ k, k ∈ ks ↔ is_Some (secrets_cache w !! k)) →
  (∀ i : nat, (tick w ≤ i < tick w + length ks)%nat → lo ≤ clock i ≤ hi) →
  ∃ w', for_each ks sweep_key w = (Returns tt, w')
        ∧ (∀ k e, secrets_cache w !! k = Some e → expiration e ≤ lo →
                  secrets_cache w' !! k = None)
        ∧ (∀ k e, secrets_cache w !! k = Some e → hi < expiration e →
                  secrets_cache w' !! k = Some e)
        ∧ (∀ k e, secrets_cache w' !! k = Some e →
                  secrets_cache w !! k = Some e)
        ∧ logs w' = logs w.
Proof.
  intros Hnd Hks Hclock.
  destruct (sweep_keys_spec ks w) as (w' & Hrun & Ht & Hl & Hout & Hidx).
  { done. }
  { intros k Hk. by apply Hks. }
  assert (∀ k e, secrets_cache w !! k = Some e →
                 ∃ i : nat, lo ≤ clock (tick w + i)%nat ≤ hi
                   ∧ secrets_cache w' !! k
                     = if bool_decide (expiration e ≤ clock (tick w + i)%nat)
                       then None else Some e) as Hstored.
  { intros k e He.
    assert (k ∈ ks) as Hin by (apply Hks; eauto).
    apply list_elem_of_lookup in Hin as [i Hi].
    exists i. split; [|by apply Hidx].
    apply Hclock. apply lookup_lt_Some in Hi. lia. }
  exists w'. split; [done|]. repeat split.
  - intros k e He Hexp. destruct (Hstored k e He) as (i & Hb & ->).
    by rewrite bool_decide_eq_true_2 by lia.
  - intros k e He Hexp. destruct (Hstored k e He) as (i & Hb & ->).
    by rewrite bool_decide_eq_false_2 by lia.
  - intros k e He'.
    destruct (secrets_cache w !! k) as [e0|] eqn:He0.
    + destruct (Hstored k e0 He0) as (i & _ & Hk'). rewrite Hk' in He'.
      case_bool_decide; congruence.
    + rewrite Hout in He'; [congruence|].
      intros Hin. apply Hks in Hin as [? ?]. congruence.
  - done.
Qed.

(** C7 (as amended). One sweep cycle returns nothing (its result is the
    unit value, no count) and takes one clock reading per stored key. If
    all those readings lie between [lo] and [hi], it removes every record
    with [expiration <= lo], keeps every record with [hi < expiration] as it
    is, adds no record and leaves the audit log alone. *)
Theorem sweep_cycle_postcondition (w : World) (lo hi : Z) :
  (∀ i : nat,
     (tick w ≤ i < tick w + size (secrets_cache w))%nat →
     lo ≤ clock i ≤ hi) →
  ∃ w', clear_expired_cycle w = (Returns tt, w')
        ∧ (∀ k e, secrets_cache w !! k = Some e → expiration e ≤ lo →
                  secrets_cache w' !! k = None)
        ∧ (∀ k e, secrets_cache w !! k = Some e → hi < expiration e →
                  secrets_cache w' !! k = Some e)
        ∧ (∀ k e, secrets_cache w' !! k = Some e →
                  secrets_cache w !! k = Some e)
        ∧ logs w' = logs w.
Proof.
  intros Hclock. unfold clear_expired_cycle, dict_keys.
  unfold mbind, M_bind, bind.
  apply sweep_keys_postcondition.
  - apply NoDup_fst_map_to_list.
  - intros k. rewrite list_elem_of_fmap. split.
    + intros [[k' e] [-> Hin]]. apply elem_of_map_to_list in Hin. eauto.
    + intros [e He]. exists (k, e). split; [done|].
      by apply elem_of_map_to_list.
  - by rewrite length_fmap, length_map_to_list.
Qed.

End Sweep.

(** * Scenarios, witnesses and counterexamples *)

Module scenarios.
Import scenario.

(** [Put("hello", "", 60)] gives the key; the first retrieval returns
    ["hello"], the second one "not found". *)
Example take_twice :
  let env := toy_env 0 1 in
  let '(created, w1) :=
    create_secret req {| secret := "hello"; passphrase := ""; ttl := 60 |}
      empty_world in
  let '(first, w2) := get_secret_endpoint "key0" req w1 in
  let '(second, _) := get_secret_endpoint "key0" req w2 in
  created = Returns {| secret_key := "key0" |}
  ∧ first = Returns {| responce_secret := "hello" |}
  ∧ second = Raises not_found.
Proof. vm_compute. done. Qed.

(** [Put("x", "pw1", 10)] at time 0 expires at 300 s, not at 10 s: it is
    still served by a clock that reads 299.999999 s, and a sweep at 301 s
    removes it. *)
Example floor_ttl_honoured :
  let created :=
    snd (create_secret (env := toy_env 0 0) req
           {| secret := "x"; passphrase := "pw1"; ttl := 10 |} empty_world) in
  secrets_cache created !! "key0" = Some (entry_of "enc:x" (Some "pw1") 300000000)
  ∧ fst (get_secret (env := toy_env 299999999 0) "key0" created)
    = Returns (Some (entry_of "enc:x" (Some "pw1") 300000000))
  ∧ secrets_cache
      (snd (clear_expired_cycle (env := toy_env 301000000 0) created))
    = ∅.
Proof. vm_compute. done. Qed.

(** [Put("x", "pw1", 600)]; delete with ["wrong"] is refused, delete with
    ["pw1"] succeeds, and the retrieval that follows finds nothing. *)
Example delete_with_passphrase :
  let env := toy_env 0 1 in
  let w1 :=
    snd (create_secret req
           {| secret := "x"; passphrase := "pw1"; ttl := 600 |} empty_world) in
  let '(refused, w2) := delete_secret_endpoint "key0" req (Some "wrong") w1 in
  let '(accepted, w3) := delete_secret_endpoint "key0" req (Some "pw1") w2 in
  let '(after, _) := get_secret_endpoint "key0" req w3 in
  refused = Raises passphrase_mismatch
  ∧ accepted = Returns deleted
  ∧ after = Raises not_found.
Proof. vm_compute. done. Qed.

(** A request whose TTL does not fit a [timedelta] stores nothing. *)
Example huge_ttl_overflows :
  let env := toy_env 0 1 in
  let run :=
    create_secret req
      {| secret := "x"; passphrase := "pw1"; ttl := 1000000000000000 |}
      empty_world in
  fst run = Raises OverflowError ∧ secrets_cache (snd run) = ∅.
Proof. vm_compute. done. Qed.

Lemma read_once_retrieval_witness :
  let env := toy_env 0 1 in
  let w := one_record (entry_of "enc:hello" None 500) in
  ∃ w', get_secret_endpoint "K" req w
        = (Returns {| responce_secret := "hello" |}, w')
        ∧ secrets_cache w' = delete "K" (secrets_cache w)
        ∧ secrets_cache w' !! "K" = None
        ∧ ∀ r2, get_secret_endpoint "K" r2 w' = (Raises not_found, w').
Proof.
  intros env w.
  apply (read_once_retrieval w "K" req (entry_of "enc:hello" None 500)
           "hello"); reflexivity.
Defined.

Lemma expired_never_returned_witness :
  let env := toy_env 1000 1 in
  let w := one_record (entry_of "enc:x" None 1000) in
  ∃ w', get_secret "K" w = (Returns None, w')
        ∧ secrets_cache w' = delete "K" (secrets_cache w)
        ∧ secrets_cache w' !! "K" = None
        ∧ ∀ w2, secrets_cache w2 = secrets_cache w' →
                get_secret "K" w2 = (Returns None, w2).
Proof.
  intros env w.
  apply (expired_never_returned w "K" (entry_of "enc:x" None 1000)).
  - reflexivity.
  - simpl. lia.
Defined.

Lemma decryption_failure_keeps_record_witness :
  let env := toy_env 0 1 in
  let e := entry_of "garbled" None 500 in
  let w := one_record e in
  ∃ w', get_secret_endpoint "K" req w = (Raises decryption_error, w')
        ∧ secrets_cache w' = secrets_cache w
        ∧ logs w' = logs w
        ∧ (clock (tick w') < expiration e →
           ∃ w2, get_secret "K" w' = (Returns (Some e), w2)).
Proof.
  intros env e w.
  apply (decryption_failure_keeps_record w "K" req e); reflexivity.
Defined.

(** C6, as stated, fails: [add_secret] on the key [K], which the store
    already holds, returns normally, keeps the key set [{K}] and leaves the
    new record under [K]; the record that was there is gone. *)
Lemma add_secret_silently_replaces :
  let env := toy_env 0 1 in
  let old := entry_of "enc:old" (Some "pw") 900000000 in
  let w := one_record old in
  let run := add_secret "K" "enc:new" None 300 w in
  secrets_cache w !! "K" = Some old
  ∧ fst run = Returns tt
  ∧ dom (secrets_cache (snd run)) = dom (secrets_cache w)
  ∧ secrets_cache (snd run) !! "K" = Some (entry_of "enc:new" None 300000000)
  ∧ secrets_cache (snd run) !! "K" ≠ Some old.
Proof. vm_compute. repeat split; done. Qed.

Lemma add_secret_replaces_witness :
  let env := toy_env 0 1 in
  let w := one_record (entry_of "enc:old" (Some "pw") 900000000) in
  ∃ w', add_secret "K" "enc:new" None 300 w = (Returns tt, w')
        ∧ secrets_cache w' !! "K"
          = Some (new_entry "enc:new" None 300 (clock (tick w)))
        ∧ (∀ k', k' ≠ "K" → secrets_cache w' !! k' = secrets_cache w !! k')
        ∧ dom (secrets_cache w') = dom (secrets_cache w).
Proof.
  intros env w.
  apply (add_secret_replaces w "K" "enc:new" None 300
           (entry_of "enc:old" (Some "pw") 900000000)).
  - reflexivity.
  - vm_compute. repeat split; discriminate.
Defined.

Lemma passphrase_mismatch_untouched_witness :
  let env := toy_env 0 1 in
  let e := entry_of "enc:x" (Some "pw1") 600000000 in
  let w := one_record e in
  ∃ w', delete_secret_endpoint "K" req (Some "wrong") w
        = (Raises passphrase_mismatch, w')
        ∧ secrets_cache w' = secrets_cache w
        ∧ logs w' = logs w
        ∧ (clock (tick w') < expiration e →
           (∃ w2, get_secret "K" w' = (Returns (Some e), w2))
           ∧ ∀ r2 plain,
               fernet_decrypt (encrypted_secret e) = Some plain →
               ∃ w2, get_secret_endpoint "K" r2 w'
                     = (Returns {| responce_secret := plain |}, w2)).
Proof.
  intros env e w.
  apply (passphrase_mismatch_untouched w "K" req (Some "wrong") e "pw1");
    try reflexivity; discriminate.
Defined.

Lemma matching_passphrase_deletes_witness :
  let env := toy_env 0 1 in
  let w := one_record (entry_of "enc:x" (Some "pw1") 600000000) in
  ∃ w', delete_secret_endpoint "K" req (Some "pw1") w = (Returns deleted, w')
        ∧ secrets_cache w' = delete "K" (secrets_cache w)
        ∧ secrets_cache w' !! "K" = None
        ∧ ∀ r2, get_secret_endpoint "K" r2 w' = (Raises not_found, w').
Proof.
  intros env w.
  apply (matching_passphrase_deletes w "K" req
           (entry_of "enc:x" (Some "pw1") 600000000) "pw1"); reflexivity.
Defined.

Lemma empty_passphrase_unprotected_witness :
  let env := toy_env 0 1 in
  let w := one_record (entry_of "enc:x" (Some "") 600000000) in
  ∃ w', delete_secret_endpoint "K" req (Some "guess") w = (Returns deleted, w')
        ∧ secrets_cache w' = delete "K" (secrets_cache w)
        ∧ fst (delete_secret_endpoint "K" req (Some "guess") w)
          ≠ Raises passphrase_mismatch.
Proof.
  intros env w.
  apply (empty_passphrase_unprotected w "K" req (Some "guess")
           (entry_of "enc:x" (Some "") 600000000)); reflexivity.
Defined.

(** C7, as stated, fails on the returned count: a cycle that removes no
    record and a cycle that removes one return the same value, so no count
    can be read off the result. *)
Lemma sweep_cycle_returns_no_count :
  let env := toy_env 1000 1 in
  let live := one_record (entry_of "enc:x" None 5000) in
  let expired := one_record (entry_of "enc:x" None 500) in
  ¬ ∃ count_of : outcome unit → nat,
      count_of (fst (clear_expired_cycle live))
      = removed live (clear_expired_cycle live)
      ∧ count_of (fst (clear_expired_cycle expired))
        = removed expired (clear_expired_cycle expired).
Proof.
  intros env live expired (count_of & H0 & H1).
  vm_compute in H0, H1. congruence.
Qed.

Lemma sweep_cycle_postcondition_witness :
  let env := toy_env 1000 1 in
  let w := two_records in
  ∃ w', clear_expired_cycle w = (Returns tt, w')
        ∧ (∀ k e, secrets_cache w !! k = Some e → expiration e ≤ 1000 →
                  secrets_cache w' !! k = None)
        ∧ (∀ k e, secrets_cache w !! k = Some e → 1001 < expiration e →
                  secrets_cache w' !! k = Some e)
        ∧ (∀ k e, secrets_cache w' !! k = Some e →
                  secrets_cache w !! k = Some e)
        ∧ logs w' = logs w.
Proof.
  intros env w. apply (sweep_cycle_postcondition w 1000 1001).
  intros i Hi. change (size (secrets_cache w)) with 2%nat in Hi.
  simpl in *. lia.
Defined.

End scenarios.

(** * Further properties of the store and the handlers *)

(** ** The exact runs of the handlers *)

Section ExactRuns.
Context {env : Env}.

Lemma audited_cache (row : db.Log) (w : World) :
  secrets_cache (audited row w) = secrets_cache w.
Proof. unfold audited. by destruct (db_commit _ _). Qed.

Lemma audited_tick (row : db.Log) (w : World) :
  tick (audited row w) = tick w.
Proof. unfold audited. by destruct (db_commit _ _). Qed.

Lemma audited_draws (row : db.Log) (w : World) :
  draws (audited row w) = draws w.
Proof. unfold audited. by destruct (db_commit _ _). Qed.

Lemma log_event_run (w : World) (k a ip : string) (d : option string) :
  log_event k a ip d w = (Returns tt, audited (audit_row k a ip d) w).
Proof.
  unfold log_event, audited, audit_row. by destruct (db_commit _ _).
Qed.

Lemma get_secret_endpoint_live_run (w : World) (k : string) (r : Request)
    (e : SecretEntry) (plain : string) :
  secrets_cache w !! k = Some e →
  clock (tick w) < expiration e →
  fernet_decrypt (encrypted_secret e) = Some plain →
  get_secret_endpoint k r w
  = (Returns {| responce_secret := plain |},
     audited (audit_row k "read" (client_host r) None)
       (set_cache (delete k (secrets_cache w)) (advance w))).
Proof.
  intros Hk Hlt Hdec. unfold get_secret_endpoint.
  unfold mbind, M_bind, bind at 1. rewrite (get_secret_live w k e) by done.
  unfold bind at 1, try_except, decrypt_data. rewrite Hdec.
  unfold mret, M_ret, ret at 1. unfold bind at 1.
  rewrite delete_secret_run. unfold bind at 1.
  by rewrite log_event_run.
Qed.

Lemma delete_secret_endpoint_admitted_run (w : World) (k : string)
    (r : Request) (supplied : option string) (e : SecretEntry) :
  secrets_cache w !! k = Some e →
  clock (tick w) < expiration e →
  admitted (cache_data.passphrase e) supplied →
  delete_secret_endpoint k r supplied w
  = (Returns deleted,
     audited (audit_row k "delete" (client_host r) None)
       (set_cache (delete k (secrets_cache w)) (advance w))).
Proof.
  intros Hk Hlt Hadm. unfold delete_secret_endpoint.
  unfold mbind, M_bind, bind at 1. rewrite (get_secret_live w k e) by done.
  match goal with
  | |- context [bind (if truthy _ then ?a else ?b) _ _] =>
      assert ((if truthy (cache_data.passphrase e) then a else b)
              = (mret tt : M unit)) as ->
  end.
  { destruct Hadm as [->| ->]; [done|].
    destruct (truthy (cache_data.passphrase e)); [|done].
    by rewrite bool_decide_eq_true_2. }
  unfold mret, M_ret, ret at 1. unfold bind at 1, bind at 1.
  rewrite delete_secret_run. unfold bind at 1.
  by rewrite log_event_run.
Qed.

Lemma delete_secret_endpoint_expired (w : World) (k : string) (r : Request)
    (supplied : option string) (e : SecretEntry) :
  secrets_cache w !! k = Some e →
  expiration e ≤ clock (tick w) →
  delete_secret_endpoint k r supplied w
  = (Raises not_found, set_cache (delete k (secrets_cache w)) (advance w)).
Proof.
  intros Hk Hge. unfold delete_secret_endpoint.
  unfold mbind, M_bind, bind at 1. by rewrite (get_secret_expired w k e).
Qed.

Lemma representable_floored (ttl now : Z) :
  representable (Z.max ttl 300) now ↔ representable ttl now.
Proof. unfold representable. by rewrite (Z.max_l (Z.max ttl 300) 300) by lia. Qed.

Lemma create_secret_run (w : World) (r : Request)
    (payload : CreateSecretRequest) :
  create_secret r payload w
  = if bool_decide (representable (ttl payload) (clock (tick w)))
    then (Returns {| secret_key := uuid4 (draws w) |},
          audited (audit_row (uuid4 (draws w)) "create" (client_host r)
                     (Some (create_details payload)))
            (set_cache
               (<[uuid4 (draws w) :=
                    new_entry (fernet_encrypt (S (draws w)) (secret payload))
                      (Some (passphrase payload)) (ttl payload)
                      (clock (tick w))]> (secrets_cache w))
               (advance (drawn_twice w))))
    else (Raises OverflowError, advance (drawn_twice w)).
Proof.
  unfold create_secret, encrypt_data.
  unfold mbind, M_bind, bind at 1, draw. unfold bind at 1, bind at 1.
  unfold mret, M_ret, ret at 1. unfold bind at 1.
  rewrite add_secret_run. simpl tick.
  rewrite (bool_decide_ext _ _ (representable_floored _ _)).
  case_bool_decide as Hr; [|done].
  unfold bind at 1. rewrite log_event_run.
  unfold ret, new_entry. by rewrite (Z.max_l (Z.max _ _) 300) by lia.
Qed.

End ExactRuns.

(** ** The store on its own: [get_secret], [delete_secret], [add_secret] *)

Section StoreProperties.
Context {env : Env}.

(** X1. [get_secret] hands out an entry only when the key holds it and the
    clock reads before its expiration, and then it changes neither the
    store nor the audit log. *)
Theorem get_secret_sound (w w' : World) (k : string) (e : SecretEntry) :
  get_secret k w = (Returns (Some e), w') →
  secrets_cache w !! k = Some e
  ∧ clock (tick w) < expiration e
  ∧ secrets_cache w' = secrets_cache w
  ∧ logs w' = logs w.
Proof.
  intros Hrun. apply get_secret_found_live in Hrun as (Hk & Hlt & ->). done.
Qed.

(** X2. [get_secret] never raises (its [del] is only reached for a key that
    was found), never touches another key, never adds a record and never
    writes to the audit log; after the answer [None] the key is not in the
    store. *)
Theorem get_secret_never_raises (w : World) (k : string) :
  ∃ o w', get_secret k w = (Returns o, w')
          ∧ (∀ k', k' ≠ k → secrets_cache w' !! k' = secrets_cache w !! k')
          ∧ secrets_cache w' ⊆ secrets_cache w
          ∧ logs w' = logs w
          ∧ (o = None → secrets_cache w' !! k = None).
Proof.
  destruct (secrets_cache w !! k) as [e|] eqn:Hk.
  - destruct (decide (clock (tick w) < expiration e)) as [Hlt|Hge].
    + exists (Some e), (advance w). rewrite (get_secret_live w k e) by done.
      repeat split; done.
    + exists None, (set_cache (delete k (secrets_cache w)) (advance w)).
      rewrite (get_secret_expired w k e) by (done || lia).
      repeat split; simpl.
      * intros k' Hne. by apply lookup_delete_ne.
      * apply delete_subseteq.
      * intros _. apply lookup_delete_eq.
  - exists None, w. rewrite get_secret_absent by done. repeat split; done.
Qed.

(** X3. [get_secret] on its own does not consume: on a record that is live
    at two consecutive clock readings, two calls in a row both return the
    entry and the store is as before. The read-once behaviour comes from
    the [delete_secret] of the handler. *)
Theorem get_secret_does_not_consume (w : World) (k : string)
    (e : SecretEntry) :
  secrets_cache w !! k = Some e →
  clock (tick w) < expiration e →
  clock (S (tick w)) < expiration e →
  ∃ w1 w2, get_secret k w = (Returns (Some e), w1)
           ∧ get_secret k w1 = (Returns (Some e), w2)
           ∧ secrets_cache w2 = secrets_cache w.
Proof.
  intros Hk Hlt1 Hlt2. exists (advance w), (advance (advance w)).
  split; [by apply get_secret_live|].
  split; [by apply get_secret_live|done].
Qed.

(** X4. [delete_secret] never raises, also for a key that is not in the
    store (then it changes nothing); afterwards the key is absent, the
    other keys are as before, and deleting again changes nothing more. *)
Theorem delete_secret_idempotent (w : World) (k : string) :
  ∃ w', delete_secret k w = (Returns tt, w')
        ∧ secrets_cache w' !! k = None
        ∧ (∀ k', k' ≠ k → secrets_cache w' !! k' = secrets_cache w !! k')
        ∧ (secrets_cache w !! k = None → w' = w)
        ∧ delete_secret k w' = (Returns tt, w').
Proof.
  exists (set_cache (delete k (secrets_cache w)) w).
  split; [apply delete_secret_run|]. simpl.
  split; [apply lookup_delete_eq|].
  split; [intros k' Hne; by apply lookup_delete_ne|].
  split.
  - intros Hk. by rewrite delete_id, set_cache_id.
  - rewrite delete_secret_run. simpl. by rewrite delete_delete_eq.
Qed.

(** X5. Insert then look up: after [add_secret] (on a representable date),
    a [get_secret] of the same key at a clock reading before the new
    expiration returns exactly the record built from the arguments,
    whatever the key held before. *)
Theorem add_then_get (w : World) (k enc : string) (p : option string)
    (ttl : Z) :
  representable ttl (clock (tick w)) →
  clock (S (tick w)) < clock (tick w) + Z.max ttl 300 * 1000000 →
  ∃ w1 w2,
    add_secret k enc p ttl w = (Returns tt, w1)
    ∧ get_secret k w1
      = (Returns (Some (new_entry enc p ttl (clock (tick w)))), w2).
Proof.
  intros Hr Hlt. rewrite add_secret_run, bool_decide_eq_true_2 by done.
  eexists _, _. split; [done|].
  apply get_secret_live; simpl; [apply lookup_insert_eq|done].
Qed.

End StoreProperties.

(** ** The sweep as a whole *)

Section SweepProperties.
Context {env : Env}.

(** What one cycle does to each key. *)
Lemma clear_expired_cycle_run (w : World) :
  ∃ w', clear_expired_cycle w = (Returns tt, w')
        ∧ tick w' = (tick w + size (secrets_cache w))%nat
        ∧ logs w' = logs w
        ∧ (∀ k, secrets_cache w !! k = None → secrets_cache w' !! k = None)
        ∧ (∀ k e, secrets_cache w !! k = Some e →
             ∃ i : nat,
               (i < size (secrets_cache w))%nat
               ∧ secrets_cache w' !! k
                 = if bool_decide (expiration e ≤ clock (tick w + i)%nat)
                   then None else Some e).
Proof.
  unfold clear_expired_cycle, dict_keys. unfold mbind, M_bind, bind.
  set (ks := (map_to_list (secrets_cache w)).*1).
  assert (∀ k, k ∈ ks ↔ is_Some (secrets_cache w !! k)) as Hks.
  { intros k. unfold ks. rewrite list_elem_of_fmap. split.
    - intros [[k' e] [-> Hin]]. apply elem_of_map_to_list in Hin. eauto.
    - intros [e He]. exists (k, e). split; [done|].
      by apply elem_of_map_to_list. }
  assert (length ks = size (secrets_cache w)) as Hlen
    by (unfold ks; by rewrite length_fmap, length_map_to_list).
  destruct (sweep_keys_spec ks w) as (w' & Hrun & Ht & Hl & Hout & Hidx).
  { apply NoDup_fst_map_to_list. }
  { intros k Hk. by apply Hks. }
  exists w'. split; [done|]. split; [by rewrite <- Hlen|].
  split; [done|]. split.
  - intros k Hk. rewrite Hout; [done|].
    intros Hin. apply Hks in Hin as [? ?]. congruence.
  - intros k e He.
    assert (k ∈ ks) as Hin by (apply Hks; eauto).
    apply list_elem_of_lookup in Hin as [i Hi].
    exists i. split; [|by apply Hidx].
    apply lookup_lt_Some in Hi. lia.
Qed.

Lemma clear_expired_cycle_subseteq (w : World) :
  ∃ w', clear_expired_cycle w = (Returns tt, w')
        ∧ secrets_cache w' ⊆ secrets_cache w
        ∧ logs w' = logs w.
Proof.
  destruct (clear_expired_cycle_run w) as (w' & Hrun & _ & Hl & Hnone & Hsome).
  exists w'. split; [done|]. split; [|done].
  apply map_subseteq_spec. intros k e He'.
  destruct (secrets_cache w !! k) as [e0|] eqn:He0.
  - destruct (Hsome k e0 He0) as (i & _ & Hk'). rewrite Hk' in He'.
    case_bool_decide; congruence.
  - rewrite (Hnone k He0) in He'. congruence.
Qed.

(** X6. The sweep never fails: any number of rounds of
    [clear_expired_secrets] returns normally (the [secrets_cache[key]] of
    the loop never raises [KeyError], the keys being a snapshot of which
    only the current one is deleted), never adds or alters a record and
    never writes to the audit log. *)
Theorem sweep_never_fails (cycles : nat) (w : World) :
  ∃ w', clear_expired_secrets cycles w = (Returns tt, w')
        ∧ secrets_cache w' ⊆ secrets_cache w
        ∧ logs w' = logs w.
Proof.
  revert w. induction cycles as [|n IH]; intros w.
  - exists w. done.
  - destruct (clear_expired_cycle_subseteq w) as (w1 & Hrun & Hsub & Hl).
    destruct (IH w1) as (w' & Hrun' & Hsub' & Hl').
    exists w'. simpl. unfold mbind, M_bind, bind. rewrite Hrun.
    split; [done|]. split; [by etrans|congruence].
Qed.

(** X7. The sweep is invisible to readers: if every clock reading of a
    cycle is at most [now], then a retrieval at the reading [now] gets the
    same answer from the swept store as from the store before the cycle,
    both from [get_secret] and from [get_secret_endpoint]. *)
Theorem sweep_invisible_to_readers (w : World) (now : Z) :
  (∀ i : nat,
     (tick w ≤ i < tick w + size (secrets_cache w))%nat → clock i ≤ now) →
  ∃ w', clear_expired_cycle w = (Returns tt, w')
        ∧ ∀ (k : string) (r : Request) (before after : World),
            secrets_cache before = secrets_cache w →
            secrets_cache after = secrets_cache w' →
            clock (tick before) = now →
            clock (tick after) = now →
            fst (get_secret k before) = fst (get_secret k after)
            ∧ fst (get_secret_endpoint k r before)
              = fst (get_secret_endpoint k r after).
Proof.
  intros Hclock.
  destruct (clear_expired_cycle_run w) as (w' & Hrun & _ & _ & Hnone & Hsome).
  exists w'. split; [done|].
  intros k r wb wa Hb Ha Htb Hta.
  destruct (secrets_cache w !! k) as [e|] eqn:Hk.
  - destruct (Hsome k e Hk) as (i & Hi & Hk').
    specialize (Hclock (tick w + i)%nat ltac:(lia)).
    destruct (decide (now < expiration e)) as [Hlt|Hge].
    + rewrite bool_decide_eq_false_2 in Hk' by lia.
      rewrite <- Hb in Hk. rewrite <- Ha in Hk'.
      rewrite (get_secret_live wb k e), (get_secret_live wa k e)
        by (done || lia).
      split; [done|].
      destruct (fernet_decrypt (encrypted_secret e)) as [plain|] eqn:Hdec.
      * rewrite (get_secret_endpoint_live_run wb k r e plain),
          (get_secret_endpoint_live_run wa k r e plain) by (done || lia).
        done.
      * rewrite (get_secret_endpoint_undecryptable wb k r e),
          (get_secret_endpoint_undecryptable wa k r e) by (done || lia).
        done.
    + rewrite <- Hb in Hk.
      rewrite (get_secret_expired wb k e),
        (get_secret_endpoint_expired wb k r e) by (done || lia).
      rewrite <- Ha in Hk'. case_bool_decide.
      * rewrite get_secret_absent, get_secret_endpoint_absent by done. done.
      * rewrite (get_secret_expired wa k e),
          (get_secret_endpoint_expired wa k r e) by (done || lia).
        done.
  - specialize (Hnone k Hk). rewrite <- Hb in Hk. rewrite <- Ha in Hnone.
    rewrite !get_secret_absent, !get_secret_endpoint_absent by done. done.
Qed.

End SweepProperties.

(** ** The handlers: every case of a request *)

Section HandlerCases.
Context {env : Env}.

Lemma get_secret_endpoint_cases (w : World) (k : string) (r : Request) :
  (secrets_cache w !! k = None
   ∧ get_secret_endpoint k r w = (Raises not_found, w))
  ∨ (∃ e, secrets_cache w !! k = Some e ∧ expiration e ≤ clock (tick w)
          ∧ get_secret_endpoint k r w
            = (Raises not_found,
               set_cache (delete k (secrets_cache w)) (advance w)))
  ∨ (∃ e, secrets_cache w !! k = Some e ∧ clock (tick w) < expiration e
          ∧ fernet_decrypt (encrypted_secret e) = None
          ∧ get_secret_endpoint k r w = (Raises decryption_error, advance w))
  ∨ (∃ e plain,
       secrets_cache w !! k = Some e ∧ clock (tick w) < expiration e
       ∧ fernet_decrypt (encrypted_secret e) = Some plain
       ∧ get_secret_endpoint k r w
         = (Returns {| responce_secret := plain |},
            audited (audit_row k "read" (client_host r) None)
              (set_cache (delete k (secrets_cache w)) (advance w)))).
Proof.
  destruct (secrets_cache w !! k) as [e|] eqn:Hk.
  - destruct (decide (clock (tick w) < expiration e)) as [Hlt|Hge].
    + destruct (fernet_decrypt (encrypted_secret e)) as [plain|] eqn:Hdec.
      * do 3 right. exists e, plain.
        by rewrite (get_secret_endpoint_live_run w k r e plain).
      * do 2 right. left. exists e.
        by rewrite (get_secret_endpoint_undecryptable w k r e).
    + right. left. exists e.
      rewrite (get_secret_endpoint_expired w k r e) by (done || lia).
      repeat split; (done || lia).
  - left. by rewrite get_secret_endpoint_absent.
Qed.

Lemma delete_secret_endpoint_cases (w : World) (k : string) (r : Request)
    (supplied : option string) :
  (secrets_cache w !! k = None
   ∧ delete_secret_endpoint k r supplied w = (Raises not_found, w))
  ∨ (∃ e, secrets_cache w !! k = Some e ∧ expiration e ≤ clock (tick w)
          ∧ delete_secret_endpoint k r supplied w
            = (Raises not_found,
               set_cache (delete k (secrets_cache w)) (advance w)))
  ∨ (∃ e, secrets_cache w !! k = Some e ∧ clock (tick w) < expiration e
          ∧ truthy (cache_data.passphrase e) = true
          ∧ supplied ≠ cache_data.passphrase e
          ∧ delete_secret_endpoint k r supplied w
            = (Raises passphrase_mismatch, advance w))
  ∨ (∃ e, secrets_cache w !! k = Some e ∧ clock (tick w) < expiration e
          ∧ admitted (cache_data.passphrase e) supplied
          ∧ delete_secret_endpoint k r supplied w
            = (Returns deleted,
               audited (audit_row k "delete" (client_host r) None)
                 (set_cache (delete k (secrets_cache w)) (advance w)))).
Proof.
  destruct (secrets_cache w !! k) as [e|] eqn:Hk.
  - destruct (decide (clock (tick w) < expiration e)) as [Hlt|Hge].
    + destruct (truthy (cache_data.passphrase e)) eqn:Htr.
      * destruct (decide (supplied = cache_data.passphrase e)) as [Heq|Hne].
        -- do 3 right. exists e.
           assert (admitted (cache_data.passphrase e) supplied) by (by right).
           by rewrite (delete_secret_endpoint_admitted_run w k r supplied e).
        -- do 2 right. left. exists e.
           by rewrite (delete_secret_endpoint_refused w k r supplied e).
      * do 3 right. exists e.
        assert (admitted (cache_data.passphrase e) supplied) by (by left).
        by rewrite (delete_secret_endpoint_admitted_run w k r supplied e).
    + right. left. exists e.
      rewrite (delete_secret_endpoint_expired w k r supplied e)
        by (done || lia).
      repeat split; (done || lia).
  - left. by rewrite delete_secret_endpoint_absent.
Qed.

End HandlerCases.

(** ** Creation and retrieval composed *)

Section HandlerProperties.
Context {env : Env}.

(** X8. Round trip through the handlers: when the cipher gives back what
    it encrypted, [create_secret] followed by [get_secret_endpoint] with
    the returned key, before the expiration, returns the submitted secret,
    and the key is gone afterwards. *)
Theorem create_then_retrieve (w : World) (r r2 : Request)
    (payload : CreateSecretRequest) :
  representable (ttl payload) (clock (tick w)) →
  clock (S (tick w)) < clock (tick w) + Z.max (ttl payload) 300 * 1000000 →
  fernet_decrypt (fernet_encrypt (S (draws w)) (secret payload))
  = Some (secret payload) →
  ∃ w1 w2,
    create_secret r payload w
    = (Returns {| secret_key := uuid4 (draws w) |}, w1)
    ∧ get_secret_endpoint (uuid4 (draws w)) r2 w1
      = (Returns {| responce_secret := secret payload |}, w2)
    ∧ secrets_cache w2 !! uuid4 (draws w) = None.
Proof.
  intros Hr Hlt Hdec.
  rewrite create_secret_run, bool_decide_eq_true_2 by done.
  eexists _, _. split; [done|].
  rewrite (get_secret_endpoint_live_run _ _ r2
             (new_entry (fernet_encrypt (S (draws w)) (secret payload))
                (Some (passphrase payload)) (ttl payload) (clock (tick w)))
             (secret payload)).
  - split; [done|]. rewrite !audited_cache. simpl. apply lookup_delete_eq.
  - rewrite audited_cache. simpl. apply lookup_insert_eq.
  - rewrite audited_tick. done.
  - done.
Qed.

(** X9. A TTL whose expiration date Python cannot represent makes
    [create_secret] fail with [OverflowError]: no record is stored and no
    audit row is written. *)
Theorem create_secret_overflow (w : World) (r : Request)
    (payload : CreateSecretRequest) :
  ¬ representable (ttl payload) (clock (tick w)) →
  ∃ w', create_secret r payload w = (Raises OverflowError, w')
        ∧ secrets_cache w' = secrets_cache w
        ∧ logs w' = logs w.
Proof.
  intros Hr. rewrite create_secret_run, bool_decide_eq_false_2 by done.
  eexists. done.
Qed.

(** X10. [create_secret] writes under the generated key only: whatever its
    outcome, every other key holds what it held. *)
Theorem create_secret_touches_one_key (w : World) (r : Request)
    (payload : CreateSecretRequest) (k' : string) :
  k' ≠ uuid4 (draws w) →
  secrets_cache (snd (create_secret r payload w)) !! k'
  = secrets_cache w !! k'.
Proof.
  intros Hne. rewrite create_secret_run. case_bool_decide; simpl; [|done].
  rewrite audited_cache. simpl. by apply lookup_insert_ne.
Qed.

(** X11. Two creations in a row: when the two generated keys differ, both
    records are in the store afterwards, each with its own token,
    passphrase and expiration. *)
Theorem successive_creations (w : World) (r1 r2 : Request)
    (p1 p2 : CreateSecretRequest) :
  uuid4 (draws w) ≠ uuid4 (S (S (draws w))) →
  representable (ttl p1) (clock (tick w)) →
  representable (ttl p2) (clock (S (tick w))) →
  ∃ w1 w2,
    create_secret r1 p1 w = (Returns {| secret_key := uuid4 (draws w) |}, w1)
    ∧ create_secret r2 p2 w1
      = (Returns {| secret_key := uuid4 (S (S (draws w))) |}, w2)
    ∧ secrets_cache w2 !! uuid4 (draws w)
      = Some (new_entry (fernet_encrypt (S (draws w)) (secret p1))
                (Some (passphrase p1)) (ttl p1) (clock (tick w)))
    ∧ secrets_cache w2 !! uuid4 (S (S (draws w)))
      = Some (new_entry (fernet_encrypt (S (S (S (draws w)))) (secret p2))
                (Some (passphrase p2)) (ttl p2) (clock (S (tick w)))).
Proof.
  intros Hne Hr1 Hr2.
  rewrite create_secret_run, bool_decide_eq_true_2 by done.
  eexists _, _. split; [done|].
  rewrite create_secret_run. rewrite audited_tick, audited_draws. simpl tick.
  simpl draws. rewrite bool_decide_eq_true_2 by done.
  split; [done|]. rewrite !audited_cache. simpl. split.
  - rewrite lookup_insert_ne by done. apply lookup_insert_eq.
  - apply lookup_insert_eq.
Qed.

(** X12. The outcomes of [get_secret_endpoint]: it returns only the
    decryption of a stored, live record, which it deletes; otherwise it
    raises "not found" (404: no live record under the key; an expired one
    is purged) or the decryption error (500: the record stays). It raises
    nothing else. *)
Theorem get_secret_endpoint_outcomes (w : World) (k : string) (r : Request) :
  match get_secret_endpoint k r w with
  | (Returns resp, w') =>
      secrets_cache w' = delete k (secrets_cache w)
      ∧ ∃ e, secrets_cache w !! k = Some e
             ∧ clock (tick w) < expiration e
             ∧ fernet_decrypt (encrypted_secret e)
               = Some (responce_secret resp)
  | (Raises x, w') =>
      (x = not_found
       ∧ secrets_cache w' = delete k (secrets_cache w)
       ∧ ∀ e, secrets_cache w !! k = Some e → expiration e ≤ clock (tick w))
      ∨ (x = decryption_error
         ∧ secrets_cache w' = secrets_cache w
         ∧ ∃ e, secrets_cache w !! k = Some e
                ∧ clock (tick w) < expiration e
                ∧ fernet_decrypt (encrypted_secret e) = None)
  end.
Proof.
  destruct (get_secret_endpoint_cases w k r)
    as [[Hk ->]|[(e & Hk & Hge & ->)|[(e & Hk & Hlt & Hdec & ->)
       |(e & plain & Hk & Hlt & Hdec & ->)]]].
  - left. split; [done|]. split; [by rewrite delete_id|]. congruence.
  - left. split; [done|]. split; [done|]. congruence.
  - right. eauto 10.
  - rewrite audited_cache. eauto 10.
Qed.

(** X13. The outcomes of [delete_secret_endpoint]: it answers "deleted"
    only for a stored, live record whose passphrase is false or equal to
    the supplied one, and deletes it; otherwise it raises "not found" (404:
    no live record under the key; an expired one is purged) or the
    mismatch (403: the record stays). It raises nothing else. *)
Theorem delete_secret_endpoint_outcomes (w : World) (k : string)
    (r : Request) (supplied : option string) :
  match delete_secret_endpoint k r supplied w with
  | (Returns resp, w') =>
      resp = deleted
      ∧ secrets_cache w' = delete k (secrets_cache w)
      ∧ ∃ e, secrets_cache w !! k = Some e
             ∧ clock (tick w) < expiration e
             ∧ admitted (cache_data.passphrase e) supplied
  | (Raises x, w') =>
      (x = not_found
       ∧ secrets_cache w' = delete k (secrets_cache w)
       ∧ ∀ e, secrets_cache w !! k = Some e → expiration e ≤ clock (tick w))
      ∨ (x = passphrase_mismatch
         ∧ secrets_cache w' = secrets_cache w
         ∧ ∃ e, secrets_cache w !! k = Some e
                ∧ clock (tick w) < expiration e
                ∧ truthy (cache_data.passphrase e) = true
                ∧ supplied ≠ cache_data.passphrase e)
  end.
Proof.
  destruct (delete_secret_endpoint_cases w k r supplied)
    as [[Hk ->]|[(e & Hk & Hge & ->)|[(e & Hk & Hlt & Htr & Hne & ->)
       |(e & Hk & Hlt & Hadm & ->)]]].
  - left. split; [done|]. split; [by rewrite delete_id|]. congruence.
  - left. split; [done|]. split; [done|]. congruence.
  - right. eauto 10.
  - rewrite audited_cache. eauto 10.
Qed.

(** X14. The handlers keep the secrets apart: a retrieval or a deletion
    under the key [k], whatever its outcome, leaves every other key with
    the record it had. *)
Theorem handlers_isolate_keys (w : World) (k k' : string) (r : Request)
    (supplied : option string) :
  k' ≠ k →
  secrets_cache (snd (get_secret_endpoint k r w)) !! k'
  = secrets_cache w !! k'
  ∧ secrets_cache (snd (delete_secret_endpoint k r supplied w)) !! k'
    = secrets_cache w !! k'.
Proof.
  intros Hne. split.
  - destruct (get_secret_endpoint_cases w k r)
      as [[Hk ->]|[(e & Hk & Hge & ->)|[(e & Hk & Hlt & Hdec & ->)
         |(e & plain & Hk & Hlt & Hdec & ->)]]];
      cbn [snd]; rewrite ?audited_cache; simpl; try done;
      by apply lookup_delete_ne.
  - destruct (delete_secret_endpoint_cases w k r supplied)
      as [[Hk ->]|[(e & Hk & Hge & ->)|[(e & Hk & Hlt & Htr & Hne' & ->)
         |(e & Hk & Hlt & Hadm & ->)]]];
      cbn [snd]; rewrite ?audited_cache; simpl; try done;
      by apply lookup_delete_ne.
Qed.

(** X15. An expired record is "not found" for both handlers, whatever the
    token and whatever passphrase is supplied: the request raises the 404,
    purges the record and writes no audit row. *)
Theorem expired_is_not_found (w : World) (k : string) (r : Request)
    (supplied : option string) (e : SecretEntry) :
  secrets_cache w !! k = Some e →
  expiration e ≤ clock (tick w) →
  ∃ w', get_secret_endpoint k r w = (Raises not_found, w')
        ∧ delete_secret_endpoint k r supplied w = (Raises not_found, w')
        ∧ secrets_cache w' !! k = None
        ∧ logs w' = logs w.
Proof.
  intros Hk Hge. eexists.
  split; [by apply (get_secret_endpoint_expired w k r e)|].
  split; [by apply (delete_secret_endpoint_expired w k r supplied e)|].
  simpl. split; [apply lookup_delete_eq|done].
Qed.

Lemma audited_logs (row : db.Log) (w1 w2 : World) :
  logs w1 = logs w2 → logs (audited row w1) = logs (audited row w2).
Proof.
  intros Hl. unfold audited. rewrite Hl. by destruct (db_commit _ _).
Qed.

(** X17. What reaches the audit log: a request that raises writes
    nothing; a successful creation, retrieval or deletion offers exactly
    one row to the database (the key, the action [create], [read] or
    [delete], the client's address and, for a creation, the effective TTL
    and whether a passphrase was given), and the log is then what the
    commit made of it, or unchanged when the commit raised. *)
Theorem requests_and_audit_rows (w : World) (k : string) (r : Request)
    (supplied : option string) (payload : CreateSecretRequest) :
  match create_secret r payload w with
  | (Returns resp, w') =>
      logs w'
      = logs (audited (audit_row (secret_key resp) "create" (client_host r)
                         (Some (create_details payload))) w)
  | (Raises _, w') => logs w' = logs w
  end
  ∧ match get_secret_endpoint k r w with
    | (Returns _, w') =>
        logs w' = logs (audited (audit_row k "read" (client_host r) None) w)
    | (Raises _, w') => logs w' = logs w
    end
  ∧ match delete_secret_endpoint k r supplied w with
    | (Returns _, w') =>
        logs w' = logs (audited (audit_row k "delete" (client_host r) None) w)
    | (Raises _, w') => logs w' = logs w
    end.
Proof.
  split; [|split].
  - rewrite create_secret_run. case_bool_decide; [|done].
    by apply audited_logs.
  - destruct (get_secret_endpoint_cases w k r)
      as [[Hk ->]|[(e & Hk & Hge & ->)|[(e & Hk & Hlt & Hdec & ->)
         |(e & plain & Hk & Hlt & Hdec & ->)]]]; try done.
    by apply audited_logs.
  - destruct (delete_secret_endpoint_cases w k r supplied)
      as [[Hk ->]|[(e & Hk & Hge & ->)|[(e & Hk & Hlt & Htr & Hne' & ->)
         |(e & Hk & Hlt & Hadm & ->)]]]; try done.
    by apply audited_logs.
Qed.

(** X18. Reading and deleting exclude each other: on a live record whose
    token decrypts and whose passphrase check lets the request through,
    after the retrieval a deletion answers "not found", and after the
    deletion a retrieval answers "not found". *)
Theorem read_and_delete_exclude (w : World) (k : string) (r r' : Request)
    (supplied : option string) (e : SecretEntry) (plain : string) :
  secrets_cache w !! k = Some e →
  clock (tick w) < expiration e →
  fernet_decrypt (encrypted_secret e) = Some plain →
  admitted (cache_data.passphrase e) supplied →
  (∃ w1, get_secret_endpoint k r w
         = (Returns {| responce_secret := plain |}, w1)
         ∧ delete_secret_endpoint k r' supplied w1 = (Raises not_found, w1))
  ∧ (∃ w1, delete_secret_endpoint k r' supplied w = (Returns deleted, w1)
           ∧ get_secret_endpoint k r w1 = (Raises not_found, w1)).
Proof.
  intros Hk Hlt Hdec Hadm. split.
  - rewrite (get_secret_endpoint_live_run w k r e plain) by done.
    eexists. split; [done|]. apply delete_secret_endpoint_absent.
    rewrite audited_cache. apply lookup_delete_eq.
  - rewrite (delete_secret_endpoint_admitted_run w k r' supplied e) by done.
    eexists. split; [done|]. apply get_secret_endpoint_absent.
    rewrite audited_cache. apply lookup_delete_eq.
Qed.

(** X19. A record that cannot be decrypted is not stuck: the retrieval
    fails with the decryption error and leaves it in place, and a deletion
    that passes the passphrase check then removes it. *)
Theorem undecryptable_can_be_deleted (w : World) (k : string)
    (r r' : Request) (supplied : option string) (e : SecretEntry) :
  secrets_cache w !! k = Some e →
  clock (tick w) < expiration e →
  clock (S (tick w)) < expiration e →
  fernet_decrypt (encrypted_secret e) = None →
  admitted (cache_data.passphrase e) supplied →
  ∃ w1 w2, get_secret_endpoint k r w = (Raises decryption_error, w1)
           ∧ delete_secret_endpoint k r' supplied w1 = (Returns deleted, w2)
           ∧ secrets_cache w2 !! k = None.
Proof.
  intros Hk Hlt Hlt' Hdec Hadm. exists (advance w). eexists.
  split; [by apply (get_secret_endpoint_undecryptable w k r e)|].
  split;
    [by apply (delete_secret_endpoint_admitted_run (advance w) k r'
                 supplied e)|].
  rewrite audited_cache. apply lookup_delete_eq.
Qed.

End HandlerProperties.

(** ** The audit log cannot break a request *)

Section AuditIndependence.
Context (env : Env).
Context (commit : list db.Log → db.Log → option (list db.Log)).

(** X16. Logging is best effort: the answer of every handler and the store
    it leaves behind are the same whatever the database does with the audit
    rows, be it that every commit raises. *)
Theorem audit_cannot_break_requests (w : World) (k : string) (r : Request)
    (supplied : option string) (payload : CreateSecretRequest) :
  let env' := with_db_commit env commit in
  (fst (create_secret (env := env') r payload w)
   = fst (create_secret (env := env) r payload w)
   ∧ secrets_cache (snd (create_secret (env := env') r payload w))
     = secrets_cache (snd (create_secret (env := env) r payload w)))
  ∧ (fst (get_secret_endpoint (env := env') k r w)
     = fst (get_secret_endpoint (env := env) k r w)
     ∧ secrets_cache (snd (get_secret_endpoint (env := env') k r w))
       = secrets_cache (snd (get_secret_endpoint (env := env) k r w)))
  ∧ (fst (delete_secret_endpoint (env := env') k r supplied w)
     = fst (delete_secret_endpoint (env := env) k r supplied w)
     ∧ secrets_cache (snd (delete_secret_endpoint (env := env') k r supplied w))
       = secrets_cache (snd (delete_secret_endpoint (env := env) k r supplied w))).
Proof.
  intros env'. split; [|split].
  - rewrite (create_secret_run (env := env')), (create_secret_run (env := env)).
    change (@clock env') with (@clock env).
    case_bool_decide; cbn [fst snd]; [|done].
    by rewrite (audited_cache (env := env')), (audited_cache (env := env)).
  - destruct (get_secret_endpoint_cases (env := env) w k r)
      as [[Hk ->]|[(e & Hk & Hge & ->)|[(e & Hk & Hlt & Hdec & ->)
         |(e & plain & Hk & Hlt & Hdec & ->)]]].
    + by rewrite (get_secret_endpoint_absent (env := env') w k r Hk).
    + by rewrite (get_secret_endpoint_expired (env := env') w k r e Hk Hge).
    + by rewrite (get_secret_endpoint_undecryptable (env := env') w k r e
                    Hk Hlt Hdec).
    + rewrite (get_secret_endpoint_live_run (env := env') w k r e plain
                 Hk Hlt Hdec).
      cbn [fst snd].
      by rewrite (audited_cache (env := env')), (audited_cache (env := env)).
  - destruct (delete_secret_endpoint_cases (env := env) w k r supplied)
      as [[Hk ->]|[(e & Hk & Hge & ->)|[(e & Hk & Hlt & Htr & Hne & ->)
         |(e & Hk & Hlt & Hadm & ->)]]].
    + by rewrite (delete_secret_endpoint_absent (env := env') w k r supplied
                    Hk).
    + by rewrite (delete_secret_endpoint_expired (env := env') w k r supplied
                    e Hk Hge).
    + by rewrite (delete_secret_endpoint_refused (env := env') w k r supplied
                    e Hk Hlt Htr Hne).
    + rewrite (delete_secret_endpoint_admitted_run (env := env') w k r
                 supplied e Hk Hlt Hadm).
      cbn [fst snd].
      by rewrite (audited_cache (env := env')), (audited_cache (env := env)).
Qed.

End AuditIndependence.

(** ** Five minutes, sweeps included *)

Section FloorAndSweep.
Context {env : Env}.

(** X20. The floor holds against the sweeper: whatever TTL was requested,
    if the sweep cycle that follows a creation and the retrieval after it
    read the clock within 300 seconds of the creation, the cycle keeps the
    new record and the retrieval returns the submitted secret (the cipher
    giving back what it encrypted). *)
Theorem created_secret_survives_sweep (w : World) (r r2 : Request)
    (payload : CreateSecretRequest) :
  representable (ttl payload) (clock (tick w)) →
  fernet_decrypt (fernet_encrypt (S (draws w)) (secret payload))
  = Some (secret payload) →
  (∀ i : nat,
     (S (tick w) ≤ i ≤ S (tick w) + S (size (secrets_cache w)))%nat →
     clock i < clock (tick w) + 300 * 1000000) →
  ∃ w1 w2 w3,
    create_secret r payload w
    = (Returns {| secret_key := uuid4 (draws w) |}, w1)
    ∧ clear_expired_cycle w1 = (Returns tt, w2)
    ∧ get_secret_endpoint (uuid4 (draws w)) r2 w2
      = (Returns {| responce_secret := secret payload |}, w3).
Proof.
  intros Hr Hdec Hclock.
  rewrite create_secret_run, bool_decide_eq_true_2 by done.
  set (key := uuid4 (draws w)).
  set (e := new_entry (fernet_encrypt (S (draws w)) (secret payload))
              (Some (passphrase payload)) (ttl payload) (clock (tick w))).
  set (w1 := audited _ _).
  assert (secrets_cache w1 = <[key := e]> (secrets_cache w)) as Hc1
    by (unfold w1; by rewrite audited_cache).
  assert (tick w1 = S (tick w)) as Ht1
    by (unfold w1; by rewrite audited_tick).
  assert (size (secrets_cache w1) ≤ S (size (secrets_cache w)))%nat as Hsz.
  { rewrite Hc1, map_size_insert. destruct (secrets_cache w !! key); simpl; lia. }
  assert (clock (tick w) + 300 * 1000000 ≤ expiration e) as Hexp
    by (unfold e; simpl; lia).
  destruct (clear_expired_cycle_run w1) as (w2 & Hrun & Ht2 & _ & _ & Hsome).
  destruct (Hsome key e) as (i & Hi & Hk2).
  { rewrite Hc1. apply lookup_insert_eq. }
  rewrite bool_decide_eq_false_2 in Hk2.
  2:{ specialize (Hclock (tick w1 + i)%nat ltac:(lia)). lia. }
  exists w1, w2. eexists. split; [done|]. split; [done|].
  apply (get_secret_endpoint_live_run w2 key r2 e); [done| |done].
  specialize (Hclock (tick w2) ltac:(lia)). lia.
Qed.

End FloorAndSweep.

(** ** Witnesses of the further properties *)

Module further_scenarios.
Import scenario.

Lemma get_secret_sound_witness :
  let env := toy_env 0 1 in
  let e := entry_of "enc:hello" None 500 in
  let w := one_record e in
  secrets_cache w !! "K" = Some e
  ∧ clock (tick w) < expiration e
  ∧ secrets_cache (advance w) = secrets_cache w
  ∧ logs (advance w) = logs w.
Proof.
  intros env e w. apply (get_secret_sound w (advance w) "K" e). reflexivity.
Defined.

Lemma get_secret_does_not_consume_witness :
  let env := toy_env 0 1 in
  let e := entry_of "enc:hello" None 500 in
  let w := one_record e in
  ∃ w1 w2, get_secret "K" w = (Returns (Some e), w1)
           ∧ get_secret "K" w1 = (Returns (Some e), w2)
           ∧ secrets_cache w2 = secrets_cache w.
Proof.
  intros env e w. apply (get_secret_does_not_consume w "K" e); reflexivity.
Defined.

Lemma add_then_get_witness :
  let env := toy_env 0 1 in
  let w := one_record (entry_of "enc:old" (Some "pw") 900000000) in
  ∃ w1 w2,
    add_secret "K" "enc:new" None 10 w = (Returns tt, w1)
    ∧ get_secret "K" w1
      = (Returns (Some (new_entry "enc:new" None 10 (clock (tick w)))), w2).
Proof.
  intros env w. apply (add_then_get w "K" "enc:new" None 10).
  - vm_compute. repeat split; discriminate.
  - reflexivity.
Defined.

Lemma sweep_invisible_to_readers_witness :
  let env := toy_env 1000 1 in
  let w := two_records in
  ∃ w', clear_expired_cycle w = (Returns tt, w')
        ∧ ∀ (k : string) (r : Request) (before after : World),
            secrets_cache before = secrets_cache w →
            secrets_cache after = secrets_cache w' →
            clock (tick before) = 1001 →
            clock (tick after) = 1001 →
            fst (get_secret k before) = fst (get_secret k after)
            ∧ fst (get_secret_endpoint k r before)
              = fst (get_secret_endpoint k r after).
Proof.
  intros env w. apply (sweep_invisible_to_readers w 1001).
  intros i Hi. change (size (secrets_cache w)) with 2%nat in Hi.
  simpl in *. lia.
Defined.

Lemma create_then_retrieve_witness :
  let env := toy_env 0 1 in
  ∃ w1 w2,
    create_secret req (hello 60) empty_world
    = (Returns {| secret_key := "key0" |}, w1)
    ∧ get_secret_endpoint "key0" req w1
      = (Returns {| responce_secret := "hello" |}, w2)
    ∧ secrets_cache w2 !! "key0" = None.
Proof.
  intros env.
  refine (create_then_retrieve empty_world req req (hello 60) _ _ _).
  - vm_compute. repeat split; discriminate.
  - reflexivity.
  - reflexivity.
Defined.

Lemma create_secret_overflow_witness :
  let env := toy_env 0 1 in
  ∃ w', create_secret req (hello 1000000000000000) empty_world
        = (Raises OverflowError, w')
        ∧ secrets_cache w' = secrets_cache empty_world
        ∧ logs w' = logs empty_world.
Proof.
  intros env.
  apply (create_secret_overflow empty_world req (hello 1000000000000000)).
  intros [Hdays _]. vm_compute in Hdays. by apply Hdays.
Defined.

Lemma create_secret_touches_one_key_witness :
  let env := toy_env 0 1 in
  let w := one_record (entry_of "enc:old" (Some "pw") 900000000) in
  secrets_cache (snd (create_secret req (hello 60) w)) !! "K"
  = secrets_cache w !! "K".
Proof.
  intros env w. apply (create_secret_touches_one_key w req (hello 60) "K").
  discriminate.
Defined.

Lemma successive_creations_witness :
  let env := toy_env 0 1 in
  ∃ w1 w2,
    create_secret req (hello 60) empty_world
    = (Returns {| secret_key := "key0" |}, w1)
    ∧ create_secret req (hello 600) w1
      = (Returns {| secret_key := "key2" |}, w2)
    ∧ secrets_cache w2 !! "key0"
      = Some (new_entry "enc:hello" (Some "pw1") 60 0)
    ∧ secrets_cache w2 !! "key2"
      = Some (new_entry "enc:hello" (Some "pw1") 600 1).
Proof.
  intros env.
  refine (successive_creations empty_world req req (hello 60) (hello 600)
            _ _ _).
  - discriminate.
  - vm_compute. repeat split; discriminate.
  - vm_compute. repeat split; discriminate.
Defined.

Lemma handlers_isolate_keys_witness :
  let env := toy_env 1000 1 in
  let w := two_records in
  secrets_cache (snd (get_secret_endpoint "A" req w)) !! "B"
  = secrets_cache w !! "B"
  ∧ secrets_cache (snd (delete_secret_endpoint "A" req None w)) !! "B"
    = secrets_cache w !! "B".
Proof.
  intros env w. apply (handlers_isolate_keys w "A" "B" req None).
  discriminate.
Defined.

Lemma expired_is_not_found_witness :
  let env := toy_env 1000 1 in
  let w := one_record (entry_of "enc:x" (Some "pw1") 1000) in
  ∃ w', get_secret_endpoint "K" req w = (Raises not_found, w')
        ∧ delete_secret_endpoint "K" req (Some "pw1") w
          = (Raises not_found, w')
        ∧ secrets_cache w' !! "K" = None
        ∧ logs w' = logs w.
Proof.
  intros env w.
  apply (expired_is_not_found w "K" req (Some "pw1")
           (entry_of "enc:x" (Some "pw1") 1000)).
  - reflexivity.
  - simpl. lia.
Defined.

Lemma read_and_delete_exclude_witness :
  let env := toy_env 0 1 in
  let w := one_record (entry_of "enc:x" (Some "pw1") 600000000) in
  (∃ w1, get_secret_endpoint "K" req w
         = (Returns {| responce_secret := "x" |}, w1)
         ∧ delete_secret_endpoint "K" req (Some "pw1") w1
           = (Raises not_found, w1))
  ∧ (∃ w1, delete_secret_endpoint "K" req (Some "pw1") w
           = (Returns deleted, w1)
           ∧ get_secret_endpoint "K" req w1 = (Raises not_found, w1)).
Proof.
  intros env w.
  apply (read_and_delete_exclude w "K" req req (Some "pw1")
           (entry_of "enc:x" (Some "pw1") 600000000) "x");
    try reflexivity.
  right. reflexivity.
Defined.

Lemma undecryptable_can_be_deleted_witness :
  let env := toy_env 0 1 in
  let w := one_record (entry_of "garbled" (Some "pw1") 600000000) in
  ∃ w1 w2, get_secret_endpoint "K" req w = (Raises decryption_error, w1)
           ∧ delete_secret_endpoint "K" req (Some "pw1") w1
             = (Returns deleted, w2)
           ∧ secrets_cache w2 !! "K" = None.
Proof.
  intros env w.
  apply (undecryptable_can_be_deleted w "K" req req (Some "pw1")
           (entry_of "garbled" (Some "pw1") 600000000));
    try reflexivity.
  right. reflexivity.
Defined.

Lemma created_secret_survives_sweep_witness :
  let env := toy_env 0 1 in
  ∃ w1 w2 w3,
    create_secret req (hello 10) two_records
    = (Returns {| secret_key := "key0" |}, w1)
    ∧ clear_expired_cycle w1 = (Returns tt, w2)
    ∧ get_secret_endpoint "key0" req w2
      = (Returns {| responce_secret := "hello" |}, w3).
Proof.
  intros env.
  refine (created_secret_survives_sweep two_records req req (hello 10) _ _ _).
  - vm_compute. repeat split; discriminate.
  - reflexivity.
  - intros i Hi. change (size (secrets_cache two_records)) with 2%nat in Hi.
    simpl in *. lia.
Defined.

End further_scenarios.
